(** * Verification of [scripts/validate_rules.py]

    A shallow embedding of the data-quality asset validator: parsed
    documents are a tree of Python values, the file tree is a finite table
    of paths, the two third-party parsers and the schema library are
    parameters of the run, and Python exceptions are the [Raise] outcome of
    a small error monad. *)

From Stdlib Require Import ZArith String Ascii List Lia Permutation Sorted.
From stdpp Require Import base option list strings gmap sorting pretty.

Local Open Scope string_scope.
Local Open Scope list_scope.

(** ** Python values *)

(** A token is a mapping key or a sequence index.  JSON objects only have
    string keys; a YAML mapping may also be keyed by integers.  The same type
    serves for the elements of [err.absolute_path]. *)
Inductive token : Type :=
| TStr (s : string)
| TInt (n : Z).

#[global] Instance token_eq_dec : EqDecision token.
Proof. solve_decision. Defined.

(** What [json.loads] and [yaml.safe_load] build.  [VFloat] keeps the literal;
    [VOther] stands for the remaining YAML scalars (dates, binaries, sets) and
    carries [type(v).__name__]. *)
#[warnings="-register-all"] Inductive value : Type :=
| VNone
| VBool (b : bool)
| VInt (n : Z)
| VFloat (lit : string)
| VStr (s : string)
| VList (items : list value)
| VDict (fields : list (token * value))
| VOther (tyname : string).

(** [type(v).__name__] *)
Definition type_name (v : value) : string :=
  match v with
  | VNone => "NoneType"
  | VBool _ => "bool"
  | VInt _ => "int"
  | VFloat _ => "float"
  | VStr _ => "str"
  | VList _ => "list"
  | VDict _ => "dict"
  | VOther n => n
  end.

(** [isinstance(v, dict)] and [isinstance(v, list)] *)
Definition is_dict (v : value) : bool :=
  match v with VDict _ => true | _ => false end.

Definition is_list (v : value) : bool :=
  match v with VList _ => true | _ => false end.

(** [d.get(k)]: the entry of the first field keyed [k], if any. *)
Fixpoint dict_get (fields : list (token * value)) (k : token) : option value :=
  match fields with
  | [] => None
  | (k', v) :: rest => if decide (k' = k) then Some v else dict_get rest k
  end.

(** [k in d] *)
Definition dict_mem (fields : list (token * value)) (k : token) : bool :=
  bool_decide (is_Some (dict_get fields k)).

(** ** Exceptions *)

Inductive exn : Type :=
| TypeError (msg : string)
| ValueError (msg : string)
| AttributeError (msg : string).

Inductive result (A : Type) : Type :=
| Ret (a : A)
| Raise (e : exn).
Arguments Ret {A} a.
Arguments Raise {A} e.

#[global] Instance result_ret : MRet result := fun A a => Ret a.
#[global] Instance result_bind : MBind result := fun A B f m =>
  match m with
  | Ret a => f a
  | Raise e => Raise e
  end.
#[global] Instance result_fmap : FMap result := fun A B f m =>
  match m with
  | Ret a => Ret (f a)
  | Raise e => Raise e
  end.

Definition returns {A} (m : result A) : Prop := exists a, m = Ret a.

(** ** Paths *)

(** An absolute POSIX path, as the list of its components below [/]. *)
Definition path : Type := list string.

(** [str(p)] *)
Definition path_str (p : path) : string :=
  match p with
  | [] => "/"
  | _ => String.concat "" (map (fun c => "/" +:+ c) p)
  end.

(** ** Pointers *)

(** [f"{token}"] *)
Definition token_str (t : token) : string :=
  match t with
  | TStr s => s
  | TInt n => pretty n
  end.

(** [pointer_from_path]: the loop appends to an accumulator. *)
Definition pointer_from_path (path_tokens : list token) : string :=
  fold_left (fun pointer tok => pointer +:+ ("/" +:+ token_str tok))
            path_tokens "$".


(** ** Schema violations *)

(** A [jsonschema.ValidationError], reduced to the two attributes the script
    reads. *)
Record schema_error : Type := SchemaError {
  absolute_path : list token;
  message : string
}.

(** A compiled validator, seen through [validator.iter_errors]: the violations
    of an instance, or the exception the library raises while it validates (an
    unknown type name, a pattern that is no regular expression, a reference
    that cannot be resolved, a schema that is no object). *)
Definition validator : Type := value -> result (list schema_error).

(** *** Ordering of the sort keys *)

(** [a < b] on two tokens: strings by code point, integers numerically, and
    a [TypeError] when a string meets an integer. *)
Definition token_lt (a b : token) : result bool :=
  match a, b with
  | TStr s, TStr t => Ret (String.ltb s t)
  | TInt m, TInt n => Ret (m <? n)%Z
  | TStr _, TInt _ =>
      Raise (TypeError "'<' not supported between instances of 'str' and 'int'")
  | TInt _, TStr _ =>
      Raise (TypeError "'<' not supported between instances of 'int' and 'str'")
  end.

(** [a < b] on two lists: the first position where the items are not [==]
    decides, with [<] on the two items there; a proper prefix is smaller. *)
Fixpoint list_lt (a b : list token) : result bool :=
  match a, b with
  | [], [] => Ret false
  | [], _ :: _ => Ret true
  | _ :: _, [] => Ret false
  | x :: a', y :: b' =>
      if decide (x = y) then list_lt a' b' else token_lt x y
  end.

(** Two keys can be compared when [<] on them does not raise. *)
Definition comparable (a b : list token) : Prop := returns (list_lt a b).

(** [sorted(errs, key=lambda err: list(err.absolute_path))].  The sort is
    stable; an element goes behind those whose key is smaller than its own.
    On two elements the only comparison made is [key(errs[1]) < key(errs[0])],
    as in CPython.  Which pairs a longer input has compared is the business of
    the sorting algorithm; the properties below rest on two elements, or on
    keys that can all be compared with each other. *)
Fixpoint insert_by_path (e : schema_error) (l : list schema_error)
  : result (list schema_error) :=
  match l with
  | [] => Ret [e]
  | y :: l' =>
      b ← list_lt (absolute_path y) (absolute_path e);
      if b : bool then cons y <$> insert_by_path e l' else Ret (e :: y :: l')
  end.

Fixpoint sorted_by_path (errs : list schema_error) : result (list schema_error) :=
  match errs with
  | [] => Ret []
  | e :: rest => sorted_by_path rest ≫= insert_by_path e
  end.

(** *** Structural paths *)

(** The value a token sequence leads to inside a document, if any: a key
    of a mapping, an index into a sequence. *)
Fixpoint resolve (p : list token) (v : value) : option value :=
  match p with
  | [] => Some v
  | t :: p' =>
      match v with
      | VDict fields => dict_get fields t ≫= resolve p'
      | VList items =>
          match t with
          | TInt n =>
              if decide (0 <= n)%Z then items !! Z.to_nat n ≫= resolve p' else None
          | TStr _ => None
          end
      | _ => None
      end
  end.

Definition is_str (t : token) : bool :=
  match t with TStr _ => true | TInt _ => false end.

(** A document all of whose mappings have string keys, as every JSON
    document has. *)
Definition string_keyed (v : value) : Prop :=
  forall q fields,
    resolve q v = Some (VDict fields) ->
    Forall (fun kv => is_str (fst kv) = true) fields.

(** A validator that locates its violations inside the instance. *)
Definition reports_real_paths (v : validator) : Prop :=
  forall instance violations e,
    v instance = Ret violations ->
    e ∈ violations ->
    is_Some (resolve (absolute_path e) instance).

(** The same as a test that can be run. *)
Fixpoint string_keyedb (v : value) : bool :=
  match v with
  | VList items => forallb string_keyedb items
  | VDict fields =>
      forallb (fun kv => match kv with (k, x) => is_str k && string_keyedb x end) fields
  | _ => true
  end.

(** A validator that raises on no document with string keys. *)
Definition validates_every_document (v : validator) : Prop :=
  forall instance, string_keyed instance -> returns (v instance).

(** A schema that the schema library copes with: it builds a validator from
    it, which raises on no document with string keys and locates its
    violations inside the instance. *)
Definition usable_schema (Draft202012Validator : value -> result validator)
    (schema : value) : Prop :=
  exists v,
    Draft202012Validator schema = Ret v
    /\ validates_every_document v /\ reports_real_paths v.

(** ** The schema validator adapter *)

Definition format_item_error (file_path : path) (index : nat) (err : schema_error)
  : string :=
  path_str file_path +:+ "[" +:+ pretty index +:+ "]: "
    +:+ pointer_from_path (absolute_path err) +:+ " " +:+ message err.

Definition format_error (file_path : path) (err : schema_error) : string :=
  path_str file_path +:+ ": "
    +:+ pointer_from_path (absolute_path err) +:+ " " +:+ message err.

(** The [for index, item in enumerate(payload)] loop, with [errors] threaded
    through. *)
Fixpoint validate_items (v : validator) (file_path : path) (index : nat)
    (items : list value) (errors : list string) : result (list string) :=
  match items with
  | [] => Ret errors
  | item :: rest =>
      if is_dict item then
        violations ← v item;
        item_errors ← sorted_by_path violations;
        validate_items v file_path (S index) rest
          (errors ++ map (format_item_error file_path index) item_errors)
      else
        validate_items v file_path (S index) rest
          (errors ++ [path_str file_path +:+ "[" +:+ pretty index
                        +:+ "]: expected object, got " +:+ type_name item +:+ "."])
  end.

Definition validate_document (v : validator) (payload : value) (file_path : path)
  : result (list string) :=
  match payload with
  | VList items => validate_items v file_path 0 items []
  | VDict _ =>
      violations ← v payload;
      item_errors ← sorted_by_path violations;
      Ret ([] ++ map (format_error file_path) item_errors)
  | _ =>
      Ret [path_str file_path +:+ ": expected object or list, got "
             +:+ type_name payload +:+ "."]
  end.

(** ** Orders *)

(** Python compares strings by code point and paths by their lists of
    components.  On UTF-8 encoded strings the bytewise order of
    [String.compare] is the code point order. *)
Section Lexicographic.
Context {A : Type} (cmp : A -> A -> comparison).

Fixpoint lex_compare (l1 l2 : list A) : comparison :=
  match l1, l2 with
  | [], [] => Eq
  | [], _ :: _ => Lt
  | _ :: _, [] => Gt
  | x :: l1', y :: l2' =>
      match cmp x y with
      | Eq => lex_compare l1' l2'
      | c => c
      end
  end.
End Lexicographic.

(** What makes a three-way comparison a total order. *)
Record compare_laws {A} (cmp : A -> A -> comparison) : Prop := {
  cmp_refl : forall x, cmp x x = Eq;
  cmp_eq : forall x y, cmp x y = Eq -> x = y;
  cmp_antisym : forall x y, cmp x y = CompOpp (cmp y x);
  cmp_lt_trans : forall x y z, cmp x y = Lt -> cmp y z = Lt -> cmp x z = Lt
}.

(** [p <= q] for a three-way comparison. *)
Definition cmp_le {A} (cmp : A -> A -> comparison) : relation A :=
  fun x y => cmp x y <> Gt.

#[global] Instance cmp_le_dec {A} (cmp : A -> A -> comparison) x y :
  Decision (cmp_le cmp x y).
Proof. unfold cmp_le. solve_decision. Defined.

Definition path_compare : path -> path -> comparison := lex_compare String.compare.

Definition str_le : relation string := cmp_le String.compare.
Definition path_le : relation path := cmp_le path_compare.

(** [sorted(xs)] on strings and on paths.  Both orders are total and
    antisymmetric, so the sorted list is determined by the elements alone. *)
Definition sorted_strs (xs : list string) : list string := merge_sort str_le xs.
Definition sorted_paths (xs : list path) : list path := merge_sort path_le xs.

(** ** The file tree *)

(** What a path leads to: a regular file with its raw content, or a
    directory. *)
Inductive entry : Type :=
| File (raw : string)
| Dir.

(** The file tree as the table of its paths, in the order in which the
    operating system happens to enumerate them. *)
Definition file_system : Type := list (path * entry).

Fixpoint fs_lookup (fs : file_system) (p : path) : option entry :=
  match fs with
  | [] => None
  | (q, e) :: rest => if decide (q = p) then Some e else fs_lookup rest p
  end.

(** [p.exists()] and [p.is_file()] *)
Definition path_exists (fs : file_system) (p : path) : bool :=
  bool_decide (is_Some (fs_lookup fs p)).

Definition path_is_file (fs : file_system) (p : path) : bool :=
  match fs_lookup fs p with
  | Some (File _) => true
  | _ => false
  end.

(** [base.rglob("*")]: everything strictly below a directory, in enumeration
    order; nothing below a regular file. *)
Definition below (base p : path) : Prop := base `prefix_of` p /\ base <> p.

#[global] Instance below_dec base p : Decision (below base p).
Proof. unfold below. solve_decision. Defined.

Definition rglob (fs : file_system) (base : path) : list path :=
  match fs_lookup fs base with
  | Some Dir => filter (below base) (map fst fs)
  | _ => []
  end.

(** *** Names and extensions *)

(** The part of [s] from its last dot on, when it has one. *)
Fixpoint from_last_dot (s : string) : option string :=
  match s with
  | EmptyString => None
  | String c s' =>
      match from_last_dot s' with
      | Some t => Some t
      | None => if decide (c = "."%char) then Some s else None
      end
  end.

(** [p.suffix]: with [i = name.rfind('.')], the name from [i] on when
    [0 < i < len(name) - 1], and the empty string otherwise. *)
Definition path_suffix (p : path) : string :=
  match last p with
  | Some (String _ rest) =>
      match from_last_dot rest with
      | Some t => if decide (String.length t = 1) then "" else t
      | None => ""
      end
  | _ => ""
  end.

(** [s.lower()].  Only the ASCII letters change; no other character lowers
    to one of the letters of a supported extension. *)
Definition lower_char (c : ascii) : ascii :=
  let n := nat_of_ascii c in
  if (65 <=? n)%nat && (n <=? 90)%nat then ascii_of_nat (n + 32) else c.

Fixpoint str_lower (s : string) : string :=
  match s with
  | EmptyString => EmptyString
  | String c s' => String (lower_char c) (str_lower s')
  end.

Definition SUPPORTED_EXTENSIONS : list string := [".yaml"; ".yml"; ".json"].

Definition supported (fs : file_system) (file_path : path) : bool :=
  path_is_file fs file_path
  && bool_decide (str_lower (path_suffix file_path) ∈ SUPPORTED_EXTENSIONS).

(** [find_files]: the outer loop over the search paths appends to [files]. *)
Fixpoint find_files_from (fs : file_system) (paths : list path) (files : list path)
  : list path :=
  match paths with
  | [] => files
  | base :: rest =>
      if path_exists fs base then
        find_files_from fs rest
          (files ++ filter (fun f => supported fs f = true) (sorted_paths (rglob fs base)))
      else find_files_from fs rest files
  end.

Definition find_files (fs : file_system) (paths : list path) : list path :=
  find_files_from fs paths [].

(** ** Reference extraction *)

(** [extract_rule_ids] *)
Definition add_rule_id (ids : gset string) (item : value) : gset string :=
  match item with
  | VDict fields =>
      match dict_get fields (TStr "rule_id") with
      | Some (VStr rule_id) => ids ∪ {[ rule_id ]}
      | _ => ids
      end
  | _ => ids
  end.

Definition extract_rule_ids (payload : value) : gset string :=
  match payload with
  | VDict _ => add_rule_id ∅ payload
  | VList items => fold_left add_rule_id items ∅
  | _ => ∅
  end.

(** [extract_referenced_rule_ids] *)
Definition add_default_rule (refs : gset string) (item : value) : gset string :=
  match item with
  | VStr s => refs ∪ {[ s ]}
  | _ => refs
  end.

Definition extract_referenced_rule_ids (payload : value) : gset string :=
  match payload with
  | VDict fields =>
      let refs : gset string := ∅ in
      let refs :=
        match dict_get fields (TStr "rules") with
        | Some (VList rules) => fold_left add_rule_id rules refs
        | _ => refs
        end in
      match dict_get fields (TStr "default_rules") with
      | Some (VList default_rules) => fold_left add_default_rule default_rules refs
      | _ => refs
      end
  | _ => ∅
  end.

(** ** Whitespace *)

(** The characters [str.strip()] removes, in their UTF-8 encoding. *)
Definition space1 (c : ascii) : bool :=
  let n := nat_of_ascii c in
  ((9 <=? n) && (n <=? 13) || (28 <=? n) && (n <=? 32))%nat.

Definition space2 (c1 c2 : ascii) : bool :=
  let n1 := nat_of_ascii c1 in
  let n2 := nat_of_ascii c2 in
  ((n1 =? 194) && ((n2 =? 133) || (n2 =? 160)))%nat.

Definition space3 (c1 c2 c3 : ascii) : bool :=
  let n1 := nat_of_ascii c1 in
  let n2 := nat_of_ascii c2 in
  let n3 := nat_of_ascii c3 in
  ((n1 =? 225) && (n2 =? 154) && (n3 =? 128)
   || (n1 =? 226) && (n2 =? 128)
        && ((128 <=? n3) && (n3 <=? 138) || (n3 =? 168) || (n3 =? 169) || (n3 =? 175))
   || (n1 =? 226) && (n2 =? 129) && (n3 =? 159)
   || (n1 =? 227) && (n2 =? 128) && (n3 =? 128))%nat.

(** [not s.strip()]: nothing but whitespace. *)
Fixpoint is_blank (s : string) : bool :=
  match s with
  | EmptyString => true
  | String c1 s1 =>
      if space1 c1 then is_blank s1
      else
        match s1 with
        | String c2 s2 =>
            if space2 c1 c2 then is_blank s2
            else
              match s2 with
              | String c3 s3 => if space3 c1 c2 c3 then is_blank s3 else false
              | EmptyString => false
              end
        | EmptyString => false
        end
  end.

(** ** The run *)

(** The newline that starts some of the printed lines. *)
Definition nl : string := String (ascii_of_nat 10) EmptyString.

Record ValidationTarget : Type := {
  name : string;
  schema_path : path;
  search_paths : list path
}.

(** The parsed command line. *)
Record arguments : Type := {
  project_root : path;
  strict_references : bool;
  verbose : bool
}.

(** The accumulators of [main] and what it has printed so far. *)
Record run_state : Type := {
  all_errors : list string;
  known_rule_ids : gset string;
  referenced_rule_ids : gset string;
  stdout : list string
}.

(** The end of a run that was not aborted: the final accumulators, the
    printed lines and the process exit code. *)
Record outcome : Type := {
  errors : list string;
  warnings : list string;
  known : gset string;
  referenced : gset string;
  output : list string;
  exit_code : Z
}.

Definition add_errors (st : run_state) (errs : list string) : run_state :=
  {| all_errors := all_errors st ++ errs;
     known_rule_ids := known_rule_ids st;
     referenced_rule_ids := referenced_rule_ids st;
     stdout := stdout st |}.

Definition add_known (st : run_state) (ids : gset string) : run_state :=
  {| all_errors := all_errors st;
     known_rule_ids := known_rule_ids st ∪ ids;
     referenced_rule_ids := referenced_rule_ids st;
     stdout := stdout st |}.

Definition add_referenced (st : run_state) (ids : gset string) : run_state :=
  {| all_errors := all_errors st;
     known_rule_ids := known_rule_ids st;
     referenced_rule_ids := referenced_rule_ids st ∪ ids;
     stdout := stdout st |}.

Definition print (st : run_state) (line : string) : run_state :=
  {| all_errors := all_errors st;
     known_rule_ids := known_rule_ids st;
     referenced_rule_ids := referenced_rule_ids st;
     stdout := stdout st ++ [line] |}.

(** [p.relative_to(root)] and the text of the relative path. *)
Definition relative_to (p root : path) : result (list string) :=
  if decide (root `prefix_of` p) then Ret (drop (length root) p)
  else Raise (ValueError (path_str p +:+ " is not in the subpath of " +:+ path_str root)).

Definition relative_str (parts : list string) : string :=
  match parts with
  | [] => "."
  | _ => String.concat "/" parts
  end.

(** [p.read_text(encoding="utf-8")], up to the decoding, which belongs to the
    parsers below; the left side is the text of the exception. *)
Definition read_text (fs : file_system) (p : path) : string + string :=
  match fs_lookup fs p with
  | Some (File raw) => inr raw
  | Some Dir => inl ("[Errno 21] Is a directory: '" +:+ path_str p +:+ "'")
  | None => inl ("[Errno 2] No such file or directory: '" +:+ path_str p +:+ "'")
  end.

Section Run.
(** The third-party libraries.  A parser decodes the raw content and parses
    it; the left side is the text of the exception it raises.  The schema
    library builds a validator from a parsed schema, or raises. *)
Context (json_loads : string -> string + value).
Context (yaml_safe_load : string -> string + value).
Context (Draft202012Validator : value -> result validator).

Context (fs : file_system).

Definition read_json (p : path) : string + value :=
  match read_text fs p with
  | inl exc => inl exc
  | inr text => json_loads text
  end.

Definition load_payload (p : path) : string + value :=
  match read_text fs p with
  | inl exc => inl exc
  | inr text =>
      if decide (str_lower (path_suffix p) = ".json") then json_loads text
      else yaml_safe_load text
  end.

(** *** The suite-shape checker *)

Fixpoint check_expectations (p : path) (index : nat) (items : list value)
    (errors : list string) : list string :=
  match items with
  | [] => errors
  | item :: rest =>
      match item with
      | VDict fields =>
          if dict_mem fields (TStr "expectation_type") then
            check_expectations p (S index) rest errors
          else
            check_expectations p (S index) rest
              (errors ++ [path_str p +:+ "[expectations/" +:+ pretty index
                            +:+ "]: missing expectation_type field."])
      | _ =>
          check_expectations p (S index) rest
            (errors ++ [path_str p +:+ "[expectations/" +:+ pretty index
                          +:+ "]: expected object."])
      end
  end.

Definition validate_ge_suite_shape (p : path) : list string :=
  if negb (path_exists fs p) then []
  else
    match read_json p with
    | inl exc => [path_str p +:+ ": invalid JSON: " +:+ exc]
    | inr payload =>
        match payload with
        | VDict fields =>
            let suite_name := dict_get fields (TStr "expectation_suite_name") in
            let expectations := dict_get fields (TStr "expectations") in
            let errors : list string := [] in
            let errors :=
              match suite_name with
              | Some (VStr s) =>
                  if is_blank s then
                    errors ++ [path_str p
                                 +:+ ": expectation_suite_name must be a non-empty string."]
                  else errors
              | _ =>
                  errors ++ [path_str p
                               +:+ ": expectation_suite_name must be a non-empty string."]
              end in
            match expectations with
            | Some (VList items) => check_expectations p 0 items errors
            | _ => errors ++ [path_str p +:+ ": expectations must be a list."]
            end
        | _ => [path_str p +:+ ": expected object at root."]
        end
    end.

(** *** The loop over the files of a target *)

Context (args : arguments).

Definition process_file (target : ValidationTarget) (v : validator)
    (st : run_state) (file_path : path) : result run_state :=
  st ← (if verbose args then
          rel ← relative_to file_path (project_root args);
          Ret (print st ("  - validating " +:+ relative_str rel))
        else Ret st);
  match load_payload file_path with
  | inl exc =>
      Ret (add_errors st [path_str file_path +:+ ": unable to parse document: " +:+ exc])
  | inr payload =>
      errs ← validate_document v payload file_path;
      let st := add_errors st errs in
      if decide (name target = "rule definitions") then
        Ret (add_known st (extract_rule_ids payload))
      else
        Ret (add_referenced st (extract_referenced_rule_ids payload))
  end.

Fixpoint process_files (target : ValidationTarget) (v : validator)
    (st : run_state) (files : list path) : result run_state :=
  match files with
  | [] => Ret st
  | file_path :: rest =>
      st' ← process_file target v st file_path;
      process_files target v st' rest
  end.

(** *** The loop over the targets *)

Definition process_target (st : run_state) (target : ValidationTarget)
  : result run_state :=
  if negb (path_exists fs (schema_path target)) then
    Ret (add_errors st ["Missing schema file: " +:+ path_str (schema_path target)])
  else
    match read_json (schema_path target) with
    | inl exc =>
        Ret (add_errors st ["Unable to parse schema " +:+ path_str (schema_path target)
                              +:+ ": " +:+ exc])
    | inr schema_payload =>
        v ← Draft202012Validator schema_payload;
        let files := find_files fs (search_paths target) in
        let st :=
          if verbose args then
            print st ("[" +:+ name target +:+ "] files: " +:+ pretty (length files))
          else st in
        process_files target v st files
    end.

Fixpoint process_targets (st : run_state) (targets : list ValidationTarget)
  : result run_state :=
  match targets with
  | [] => Ret st
  | target :: rest =>
      st' ← process_target st target;
      process_targets st' rest
  end.

(** *** The reference check and the report *)

Definition missing_warning (missing : string) : string :=
  "Referenced rule ID not found in rules/core or rules/extensions: " +:+ missing.

Definition reference_warnings (known_ids referenced_ids : gset string)
  : list string :=
  let missing_refs := sorted_strs (elements (referenced_ids ∖ known_ids)) in
  map missing_warning missing_refs.

(** Lines 261 to 289 of [main], from the suite check to the exit code. *)
Definition report (st : run_state) (suite_errors : list string) : outcome :=
  let all_errors := all_errors st ++ suite_errors in
  let warnings := reference_warnings (known_rule_ids st) (referenced_rule_ids st) in
  let out :=
    stdout st
      ++ ["Data Quality asset validation summary";
          "- Known rule IDs: " +:+ pretty (size (known_rule_ids st));
          "- Referenced rule IDs: " +:+ pretty (size (referenced_rule_ids st));
          "- Errors: " +:+ pretty (length all_errors);
          "- Warnings: " +:+ pretty (length warnings)] in
  let out :=
    match warnings with
    | [] => out
    | _ => out ++ [nl +:+ "Warnings:"] ++ map (fun w => "- " +:+ w) warnings
    end in
  let finish out code :=
    {| errors := all_errors; warnings := warnings;
       known := known_rule_ids st; referenced := referenced_rule_ids st;
       output := out; exit_code := code |} in
  match all_errors with
  | _ :: _ =>
      finish (out ++ [nl +:+ "Errors:"] ++ map (fun e => "- " +:+ e) all_errors) 1%Z
  | [] =>
      if strict_references args && negb (bool_decide (warnings = [])) then
        finish out 1%Z
      else
        finish (out ++ [nl +:+ "Validation passed."]) 0%Z
  end.

Definition targets_of (root : path) : list ValidationTarget :=
  [ {| name := "rule definitions";
       schema_path := root ++ ["schemas"; "rule-schema.json"];
       search_paths := [root ++ ["rules"; "core"]; root ++ ["rules"; "extensions"]] |};
    {| name := "dataset configs";
       schema_path := root ++ ["schemas"; "dataset-config-schema.json"];
       search_paths := [root ++ ["rules"; "datasets"]] |};
    {| name := "semantic types";
       schema_path := root ++ ["schemas"; "semantic-types-schema.json"];
       search_paths := [root ++ ["rules"; "semantic_types"]] |} ].

Definition ge_suite_path (root : path) : path :=
  root ++ ["integrations"; "great_expectations"; "suites"; "core_suite.json"].

Definition initial_state : run_state :=
  {| all_errors := []; known_rule_ids := ∅; referenced_rule_ids := ∅; stdout := [] |}.

Definition main : result outcome :=
  let root := project_root args in
  st ← process_targets initial_state (targets_of root);
  Ret (report st (validate_ge_suite_shape (ge_suite_path root))).
End Run.

(** ** A small project tree, for testing *)

(** [m] when it returned, and [d] otherwise. *)
Definition result_or {A} (d : A) (m : result A) : A :=
  match m with
  | Ret a => a
  | Raise _ => d
  end.

(** The suite of the specification's example. *)
Definition one_empty_expectation : value :=
  VDict [(TStr "expectation_suite_name", VStr "s");
         (TStr "expectations", VList [VDict []])].

(** The validator compiled from a schema that forbids string-valued
    properties, [{additionalProperties: {not: {type: string}}}]: one violation
    per such property, located at the property. *)
Definition no_string_properties : validator := fun instance =>
  Ret match instance with
      | VDict fields =>
          flat_map (fun '(k, x) =>
                      match x with
                      | VStr s =>
                          [SchemaError [k]
                             ("'" +:+ s
                                +:+ "' should not be valid under {'type': 'string'}")]
                      | _ => []
                      end) fields
      | _ => []
      end.

(** A YAML mapping with an integer key next to a string key: the two lines
    [1: x] and [b: y]. *)
Definition mixed_keys : value :=
  VDict [(TInt 1, VStr "x"); (TStr "b", VStr "y")].

Module Demo.
Definition root : path := ["repo"].

(** The semantic-types schema is missing, the extensions directory too. *)
Definition tree : file_system :=
  [ (root, Dir);
    (root ++ ["schemas"], Dir);
    (root ++ ["schemas"; "rule-schema.json"], File "rule schema");
    (root ++ ["schemas"; "dataset-config-schema.json"], File "dataset schema");
    (root ++ ["rules"], Dir);
    (root ++ ["rules"; "datasets"], Dir);
    (root ++ ["rules"; "datasets"; "sales.json"], File "sales");
    (root ++ ["rules"; "datasets"; "README.md"], File "notes");
    (root ++ ["rules"; "core"], Dir);
    (root ++ ["rules"; "core"; "nulls.YAML"], File "two rules");
    (root ++ ["rules"; "core"; "broken.yml"], File "[");
    (root ++ ["rules"; "semantic_types"], Dir);
    (root ++ ["rules"; "semantic_types"; "email.yaml"], File "email");
    (root ++ ["integrations"], Dir);
    (root ++ ["integrations"; "great_expectations"], Dir);
    (root ++ ["integrations"; "great_expectations"; "suites"], Dir);
    (root ++ ["integrations"; "great_expectations"; "suites"; "core_suite.json"],
     File "suite") ].

(** A tree with its three schemas and one dataset config, which references
    two rules that no file defines. *)
Definition small : file_system :=
  [ (root, Dir);
    (root ++ ["schemas"], Dir);
    (root ++ ["schemas"; "rule-schema.json"], File "rule schema");
    (root ++ ["schemas"; "dataset-config-schema.json"], File "dataset schema");
    (root ++ ["schemas"; "semantic-types-schema.json"], File "rule schema");
    (root ++ ["rules"], Dir);
    (root ++ ["rules"; "datasets"], Dir);
    (root ++ ["rules"; "datasets"; "sales.json"], File "sales") ].

(** A tree whose only document is a YAML dataset config with an integer key
    next to a string key, under a schema that forbids string-valued
    properties. *)
Definition mixed : file_system :=
  [ (root, Dir);
    (root ++ ["schemas"], Dir);
    (root ++ ["schemas"; "rule-schema.json"], File "rule schema");
    (root ++ ["schemas"; "dataset-config-schema.json"], File "no strings");
    (root ++ ["schemas"; "semantic-types-schema.json"], File "rule schema");
    (root ++ ["rules"], Dir);
    (root ++ ["rules"; "datasets"], Dir);
    (root ++ ["rules"; "datasets"; "sales.yaml"], File "mixed keys") ].

(** The same tree, enumerated in another order. *)
Definition tree' : file_system := rev tree.

Definition json (raw : string) : string + value :=
  if decide (raw = "rule schema") then inr (VDict [])
  else if decide (raw = "dataset schema") then inr (VDict [])
  else if decide (raw = "sales") then
    inr (VDict [(TStr "rules", VList [VDict [(TStr "rule_id", VStr "R9")];
                                     VDict [(TStr "rule_id", VStr "R1")]])])
  else if decide (raw = "suite") then inr one_empty_expectation
  else if decide (raw = "no strings") then
    inr (VDict [(TStr "additionalProperties",
                 VDict [(TStr "not", VDict [(TStr "type", VStr "string")])])])
  else inl "Expecting value: line 1 column 1 (char 0)".

Definition yaml (raw : string) : string + value :=
  if decide (raw = "two rules") then
    inr (VList [VDict [(TStr "rule_id", VStr "R1")];
                VDict [(TStr "rule_id", VStr "R2")]])
  else if decide (raw = "email") then inr (VStr "email")
  else if decide (raw = "mixed keys") then inr mixed_keys
  else inl "while parsing a flow node".

(** A schema definition of draft 2020-12 is an object or a boolean; any other
    value that parses as JSON is none. *)
Definition is_schema_definition (schema : value) : bool :=
  match schema with
  | VDict _ | VBool _ => true
  | _ => false
  end.

(** [Draft202012Validator(schema)] for testing.  On a value that is no schema
    definition the library raises when it asks the schema for its [$id]; a
    schema with [additionalProperties] forbids string-valued properties; every
    other schema accepts every document. *)
Definition compile (schema : value) : result validator :=
  if is_schema_definition schema then
    match schema with
    | VDict [(TStr keyword, _)] =>
        if decide (keyword = "additionalProperties") then Ret no_string_properties
        else Ret (fun _ => Ret [])
    | _ => Ret (fun _ => Ret [])
    end
  else
    Raise (AttributeError ("'" +:+ type_name schema
                             +:+ "' object has no attribute 'get'")).

(** The same library, were it to put off that question: the validator is
    built from every value, and one built from a value that is no schema
    definition raises as soon as it is used. *)
Definition deferred (schema : value) : result validator :=
  if is_schema_definition schema then compile schema
  else
    Ret (fun _ => Raise (AttributeError ("'" +:+ type_name schema
                                           +:+ "' object has no attribute 'get'"))).

Definition lenient : arguments :=
  {| project_root := root; strict_references := false; verbose := true |}.

Definition strict : arguments :=
  {| project_root := root; strict_references := true; verbose := false |}.

Definition aborted : outcome :=
  {| errors := []; warnings := []; known := ∅; referenced := ∅;
     output := []; exit_code := 1 |}.

Definition run (fs : file_system) (args : arguments) : outcome :=
  result_or aborted (main json yaml compile fs args).

Definition semantic_types : ValidationTarget :=
  {| name := "semantic types";
     schema_path := root ++ ["schemas"; "semantic-types-schema.json"];
     search_paths := [root ++ ["rules"; "semantic_types"]] |}.
End Demo.

(** * The legacy analyser *)

(** The schema analyser of [legacy/dqanalyst]: [db_connector.py],
    [schema_analyzer.py] and [report_generator.py].  SQLite is a parameter;
    what is printed is returned as a list of lines. *)
Module Legacy.

(** [needle in s] on strings. *)
Fixpoint str_contains (needle s : string) : bool :=
  String.prefix needle s
  || match s with
     | EmptyString => false
     | String _ s' => str_contains needle s'
     end.

(** A row of [PRAGMA table_info]: [(cid, name, type, notnull, dflt_value, pk)].
    The code reads [column[1]] and [column[2]]. *)
Record column : Type := {
  cid : Z;
  column_name : string;
  column_type : string;
  notnull : Z;
  dflt_value : option string;
  pk : Z
}.

(** The dictionary from table names to their rows, in insertion order. *)
Definition schema : Type := list (string * list column).

(** [d[k] = v] *)
Fixpoint dict_set {V} (d : list (string * V)) (k : string) (v : V)
  : list (string * V) :=
  match d with
  | [] => [(k, v)]
  | (k', v') :: rest =>
      if decide (k' = k) then (k, v) :: rest else (k', v') :: dict_set rest k v
  end.

Inductive failure : Type :=
| Exception (msg : string)
| SqliteError (msg : string).

Section Sqlite.
(** [sqlite3.connect], with the text of the [sqlite3.Error] on the left; the
    names [SELECT name FROM sqlite_master WHERE type='table'] returns; the rows
    of [PRAGMA table_info] for a table name. *)
Context {Connection : Type}.
Context (sqlite3_connect : string -> string + Connection).
Context (table_names : Connection -> failure + list string).
Context (table_info : Connection -> string -> failure + list column).

Record DBConnector : Type := {
  db_path : string;
  connection : option Connection
}.

(** [DBConnector(db_path)] *)
Definition new (path : string) : DBConnector :=
  {| db_path := path; connection := None |}.

(** [connect]: the error of [sqlite3.connect] is printed, not raised. *)
Definition connect (c : DBConnector) : DBConnector * list string :=
  match sqlite3_connect (db_path c) with
  | inr conn =>
      ({| db_path := db_path c; connection := Some conn |},
       ["Database connection successful."])
  | inl e => (c, ["Error connecting to database: " +:+ e])
  end.

(** The loop of [get_schema] over the table names. *)
Fixpoint read_tables (conn : Connection) (tables : list string) (acc : schema)
  : failure + schema :=
  match tables with
  | [] => inr acc
  | table_name :: rest =>
      match table_info conn table_name with
      | inl e => inl e
      | inr rows => read_tables conn rest (dict_set acc table_name rows)
      end
  end.

Definition get_schema (c : DBConnector) : failure + schema :=
  match connection c with
  | None => inl (Exception "Database not connected.")
  | Some conn =>
      match table_names conn with
      | inl e => inl e
      | inr tables => read_tables conn tables []
      end
  end.

(** [close]: the connector keeps its connection. *)
Definition close (c : DBConnector) : list string :=
  match connection c with
  | Some _ => ["Database connection closed."]
  | None => []
  end.

(** The two loops of [analyze_schema]. *)
Definition add_relationships (table : string) (relationships : list (string * string))
    (columns : list column) : list (string * string) :=
  fold_left (fun rels col =>
               if str_contains "_id" (column_name col)
               then rels ++ [(table, column_name col)]
               else rels)
            columns relationships.

Definition relationships_of (s : schema) : list (string * string) :=
  fold_left (fun rels '(table, columns) => add_relationships table rels columns) s [].

Definition analyze_schema (c : DBConnector)
  : failure + (schema * list (string * string)) :=
  match get_schema c with
  | inl e => inl e
  | inr s => inr (s, relationships_of s)
  end.
End Sqlite.

(** [generate_report]: the rows handed to the CSV writer. *)
Definition relationship_flag (relationships : list (string * string))
    (table : string) (col : column) : string :=
  if existsb (fun rel => bool_decide (table = fst rel)
                         && str_contains (column_name col) (snd rel))
             relationships
  then "Yes" else "No".

Definition report_rows (s : schema) (relationships : list (string * string))
  : list (list string) :=
  ["Table"; "Column"; "Type"; "Relationships"]
    :: flat_map (fun '(table, columns) =>
                   map (fun col => [table; column_name col; column_type col;
                                    relationship_flag relationships table col])
                       columns)
                s.
End Legacy.

(** * The legacy dashboard *)

(** The request handlers of [legacy/dqanalyst/app.py], as functions of the
    credential store, the session of the client and what has been printed. *)
Module App.

Record user : Type := { password : string; role : string }.

Inductive http_method : Type := GET | POST.

Record request : Type := {
  method : http_method;
  form : gmap string string
}.

Inductive response : Type :=
| Render (template : string) (context : list (string * string))
| Redirect (endpoint : string)
| Text (body : string)
| BadRequest (key : string)
| MethodNotAllowed
| ServerError (msg : string).

Record state : Type := {
  users : gmap string user;
  session : gmap string string;
  printed : list string
}.

Definition initial : state :=
  {| users := {[ "admin" := {| password := "admin123"; role := "admin" |} ]};
     session := ∅;
     printed := [] |}.

Definition set_session (st : state) (s : gmap string string) : state :=
  {| users := users st; session := s; printed := printed st |}.

Definition set_users (st : state) (u : gmap string user) : state :=
  {| users := u; session := session st; printed := printed st |}.

Definition print (st : state) (lines : list string) : state :=
  {| users := users st; session := session st; printed := printed st ++ lines |}.

Definition home (st : state) : response * state :=
  match session st !! "username" with
  | Some username =>
      match session st !! "role" with
      | Some r => (Render "dashboard.html" [("username", username); ("role", r)], st)
      | None => (ServerError "KeyError: 'role'", st)
      end
  | None => (Render "login.html" [], st)
  end.

Definition login (req : request) (st : state) : response * state :=
  match method req with
  | POST =>
      match form req !! "username" with
      | None => (BadRequest "username", st)
      | Some username =>
          match form req !! "password" with
          | None => (BadRequest "password", st)
          | Some pw =>
              match users st !! username with
              | Some u =>
                  if decide (password u = pw) then
                    (Redirect "home",
                     set_session st
                       (<["role" := role u]> (<["username" := username]> (session st))))
                  else (Text "Invalid credentials!", st)
              | None => (Text "Invalid credentials!", st)
              end
          end
      end
  | GET => (Render "login.html" [], st)
  end.

Definition logout (st : state) : response * state :=
  (Redirect "home", set_session st (delete "role" (delete "username" (session st)))).

Definition register (req : request) (st : state) : response * state :=
  match method req with
  | POST =>
      match form req !! "username" with
      | None => (BadRequest "username", st)
      | Some username =>
          match form req !! "password" with
          | None => (BadRequest "password", st)
          | Some pw =>
              match users st !! username with
              | None =>
                  (Redirect "login",
                   set_users st
                     (<[username := {| password := pw; role := "user" |}]> (users st)))
              | Some _ => (Text "User already exists!", st)
              end
          end
      end
  | GET => (Render "register.html" [], st)
  end.

Definition admin (st : state) : response * state :=
  match session st !! "username" with
  | Some _ =>
      match session st !! "role" with
      | Some r =>
          if decide (r = "admin") then (Render "admin.html" [], st)
          else (Redirect "home", st)
      | None => (ServerError "KeyError: 'role'", st)
      end
  | None => (Redirect "home", st)
  end.

Definition failure_text (e : Legacy.failure) : string :=
  match e with
  | Legacy.Exception msg => msg
  | Legacy.SqliteError msg => msg
  end.

Section Database.
Context {Connection : Type}.
Context (sqlite3_connect : string -> string + Connection).
Context (table_names : Connection -> Legacy.failure + list string).
Context (table_info : Connection -> string -> Legacy.failure + list Legacy.column).

Definition setup_database (req : request) (st : state) : response * state :=
  match session st !! "username" with
  | Some _ =>
      match session st !! "role" with
      | Some r =>
          if decide (r = "admin") then
            match form req !! "db_path" with
            | None => (BadRequest "db_path", st)
            | Some path =>
                let '(c, out) := Legacy.connect sqlite3_connect (Legacy.new path) in
                match Legacy.analyze_schema table_names table_info c with
                | inl e => (ServerError (failure_text e), print st out)
                | inr _ =>
                    (Text "Database setup complete!", print st (out ++ Legacy.close c))
                end
            end
          else (Redirect "home", st)
      | None => (ServerError "KeyError: 'role'", st)
      end
  | None => (Redirect "home", st)
  end.

(** The routes, with the methods each accepts. *)
Inductive route : Type :=
| Home | Login | Logout | Register | Admin | SetupDatabase.

Definition handle (rt : route) (req : request) (st : state) : response * state :=
  match rt, method req with
  | Home, GET => home st
  | Login, _ => login req st
  | Logout, GET => logout st
  | Register, _ => register req st
  | Admin, GET => admin st
  | SetupDatabase, POST => setup_database req st
  | _, _ => (MethodNotAllowed, st)
  end.

(** A client sends one request after the other. *)
Definition serve (requests : list (route * request)) (st : state) : state :=
  fold_left (fun st '(rt, req) => snd (handle rt req st)) requests st.
End Database.
End App.

(** ** Predicates used in the statements *)

(** [s] begins with [prefix]. *)
Definition starts_with (prefix s : string) : Prop := exists rest, s = prefix +:+ rest.

(** A suite name the checker accepts: a string that is not blank. *)
Definition suite_name_ok (suite_name : option value) : bool :=
  match suite_name with
  | Some (VStr s) => negb (is_blank s)
  | _ => false
  end.

(** An element of [expectations] the checker accepts: an object with an
    [expectation_type] field. *)
Definition expectation_ok (item : value) : bool :=
  match item with
  | VDict fields => dict_mem fields (TStr "expectation_type")
  | _ => false
  end.

(** The accumulators of [st'] extend those of [st]. *)
Definition grows (st st' : run_state) : Prop :=
  all_errors st `prefix_of` all_errors st'
  /\ known_rule_ids st ⊆ known_rule_ids st'
  /\ referenced_rule_ids st ⊆ referenced_rule_ids st'
  /\ stdout st `prefix_of` stdout st'.

(** Two states with the same findings, whatever they printed. *)
Definition same_findings (st1 st2 : run_state) : Prop :=
  all_errors st1 = all_errors st2
  /\ known_rule_ids st1 = known_rule_ids st2
  /\ referenced_rule_ids st1 = referenced_rule_ids st2.


(** [t] holds no dot. *)
Definition no_dot (t : string) : Prop :=
  forall a b, t <> a +:+ String "."%char b.

(** The credential store holds the built-in administrator, and every other
    account is an ordinary user. *)
Definition credentials_ok (users : gmap string App.user) : Prop :=
  users !! "admin" = Some {| App.password := "admin123"; App.role := "admin" |}
  /\ forall u x, users !! u = Some x -> u <> "admin" -> App.role x = "user".

(** A login request that presents the administrator's credentials. *)
Definition admin_login (req : App.request) : Prop :=
  App.method req = App.POST
  /\ App.form req !! "username" = Some "admin"
  /\ App.form req !! "password" = Some "admin123".

(** The session of a logged-in client names an account, carries its role,
    and was opened by a login request that presented its password. *)
Definition session_ok (history : list (App.route * App.request)) (st : App.state)
  : Prop :=
  match App.session st !! "username" with
  | Some u =>
      exists x,
        App.users st !! u = Some x
        /\ App.session st !! "role" = Some (App.role x)
        /\ exists req,
             (App.Login, req) ∈ history
             /\ App.method req = App.POST
             /\ App.form req !! "username" = Some u
             /\ App.form req !! "password" = Some (App.password x)
  | None => True
  end.

(** ** Sample data for the further properties *)

Module Sample.
Definition rules : ValidationTarget :=
  {| name := "rule definitions";
     schema_path := Demo.root ++ ["schemas"; "rule-schema.json"];
     search_paths := [Demo.root ++ ["rules"; "core"];
                      Demo.root ++ ["rules"; "extensions"]] |}.

Definition broken : path := Demo.root ++ ["rules"; "core"; "broken.yml"].
Definition nulls : path := Demo.root ++ ["rules"; "core"; "nulls.YAML"].

(** The state after the targets of [Demo.tree], after its rule target alone,
    and after the two files of its rule target. *)
Definition after_targets : run_state :=
  result_or initial_state
    (process_targets Demo.json Demo.yaml Demo.compile Demo.tree Demo.lenient
       initial_state (targets_of Demo.root)).

Definition after_rules : run_state :=
  result_or initial_state
    (process_target Demo.json Demo.yaml Demo.compile Demo.tree Demo.lenient
       initial_state rules).

Definition after_files : run_state :=
  result_or initial_state
    (process_files Demo.json Demo.yaml Demo.tree Demo.lenient rules (fun _ => Ret [])
       initial_state [broken; nulls]).

(** A validator that reports four violations, two of them at one place. *)
Definition violations : list schema_error :=
  [SchemaError [TStr "rules"; TInt 1] "second";
   SchemaError [TStr "rules"; TInt 0; TStr "rule_id"] "first";
   SchemaError [TStr "rules"; TInt 1] "third";
   SchemaError [] "root"].

Definition four_violations : validator := fun _ => Ret violations.

(** A dataset config with two properties that hold a string. *)
Definition owners : value :=
  VDict [(TStr "team", VStr "data");
         (TStr "owner", VStr "ops");
         (TStr "rules", VList [VDict [(TStr "rule_id", VStr "R1")]])].

(** [json.loads] on two more texts: the number [5], and the dataset config
    above. *)
Definition json (raw : string) : string + value :=
  if decide (raw = "5") then inr (VInt 5)
  else if decide (raw = "owners") then inr owners
  else Demo.json raw.

Definition datasets : ValidationTarget :=
  {| name := "dataset configs";
     schema_path := Demo.root ++ ["schemas"; "dataset-config-schema.json"];
     search_paths := [Demo.root ++ ["rules"; "datasets"]] |}.

(** A tree whose dataset-config schema file holds the text [5]: it parses as
    JSON, and is no schema definition. *)
Definition invalid_schema : file_system :=
  [ (Demo.root, Dir);
    (Demo.root ++ ["schemas"], Dir);
    (Demo.root ++ ["schemas"; "rule-schema.json"], File "rule schema");
    (Demo.root ++ ["schemas"; "dataset-config-schema.json"], File "5");
    (Demo.root ++ ["schemas"; "semantic-types-schema.json"], File "rule schema");
    (Demo.root ++ ["rules"], Dir);
    (Demo.root ++ ["rules"; "core"], Dir);
    (Demo.root ++ ["rules"; "core"; "nulls.YAML"], File "two rules");
    (Demo.root ++ ["rules"; "datasets"], Dir);
    (Demo.root ++ ["rules"; "datasets"; "sales.json"], File "sales") ].


(** A database with two tables, and one that cannot be opened. *)
Definition col (n : Z) (name type : string) : Legacy.column :=
  {| Legacy.cid := n; Legacy.column_name := name; Legacy.column_type := type;
     Legacy.notnull := 0; Legacy.dflt_value := None; Legacy.pk := 0 |}.

Definition users_rows : list Legacy.column :=
  [col 0 "id" "INTEGER"; col 1 "name" "TEXT"].

Definition orders_rows : list Legacy.column :=
  [col 0 "id" "INTEGER"; col 1 "user_id" "INTEGER"; col 2 "user" "TEXT"].

Definition shop : Legacy.schema := [("users", users_rows); ("orders", orders_rows)].

Definition no_database (path : string) : string + unit :=
  inl "unable to open database file".

Definition open_database (path : string) : string + unit := inr tt.

Definition table_names (conn : unit) : Legacy.failure + list string :=
  inr ["users"; "orders"].

Definition table_info (conn : unit) (table : string)
  : Legacy.failure + list Legacy.column :=
  if decide (table = "users") then inr users_rows
  else if decide (table = "orders") then inr orders_rows
  else inr [].

Definition connected : Legacy.DBConnector :=
  {| Legacy.db_path := "shop.db"; Legacy.connection := Some tt |}.

(** Requests of a client called bob. *)
Definition bob_form : App.request :=
  {| App.method := App.POST;
     App.form := <["username" := "bob"]> (<["password" := "secret"]> ∅) |}.

Definition wrong_form : App.request :=
  {| App.method := App.POST;
     App.form := <["username" := "admin"]> (<["password" := "guess"]> ∅) |}.

Definition get : App.request := {| App.method := App.GET; App.form := ∅ |}.

Definition bob_session : list (App.route * App.request) :=
  [(App.Register, bob_form); (App.Login, wrong_form); (App.Login, bob_form);
   (App.Admin, get)].
End Sample.

(** A document of a target that the run gets to see: the schema of the
    target can be read and parsed, and the document is the parsed content of
    one of the files discovered for the target. *)
Definition loads (json_loads yaml_safe_load : string -> string + value)
    (fs : file_system) (target : ValidationTarget) (payload : value) : Prop :=
  (exists schema_payload, read_json json_loads fs (schema_path target) = inr schema_payload)
  /\ exists f,
       f ∈ find_files fs (search_paths target)
       /\ load_payload json_loads yaml_safe_load fs f = inr payload.

(** * Properties *)

(** ** The orders are total orders *)

Lemma lex_compare_laws {A} (cmp : A -> A -> comparison) :
  compare_laws cmp -> compare_laws (lex_compare cmp).
Proof.
  intros [Hr He Ha Ht]. split.
  - induction x as [|x l IH]; simpl; [done|]. by rewrite Hr.
  - induction x as [|x l IH]; intros [|y l']; simpl; try done.
    destruct (cmp x y) eqn:E; try done.
    intros H. apply He in E. apply IH in H. by subst.
  - induction x as [|x l IH]; intros [|y l']; simpl; try done.
    rewrite (Ha x y). destruct (cmp y x); simpl; auto.
  - induction x as [|x l IH]; intros [|y l'] [|z l'']; simpl; try done.
    destruct (cmp x y) eqn:Exy.
    + apply He in Exy. subst y. destruct (cmp x z); eauto.
    + destruct (cmp y z) eqn:Eyz.
      * apply He in Eyz. subst z. by rewrite Exy.
      * by rewrite (Ht _ _ _ Exy Eyz).
      * done.
    + done.
Qed.

Lemma ascii_compare_laws : compare_laws Ascii.compare.
Proof.
  split.
  - intros x. apply N.compare_refl.
  - apply Ascii.compare_eq_iff.
  - apply Ascii.compare_antisym.
  - unfold Ascii.compare. intros x y z.
    rewrite !N.compare_lt_iff. apply N.lt_trans.
Qed.

Lemma string_compare_lex s1 s2 :
  String.compare s1 s2
  = lex_compare Ascii.compare (list_ascii_of_string s1) (list_ascii_of_string s2).
Proof.
  revert s2. induction s1 as [|c s1 IH]; intros [|d s2]; simpl; try done.
  by rewrite IH.
Qed.

Lemma string_compare_laws : compare_laws String.compare.
Proof.
  pose proof (lex_compare_laws _ ascii_compare_laws) as [Hr He Ha Ht].
  split.
  - intros x. rewrite string_compare_lex. apply Hr.
  - intros x y. rewrite string_compare_lex. intros H. apply He in H.
    rewrite <- (string_of_list_ascii_of_string x), H.
    apply string_of_list_ascii_of_string.
  - intros x y. rewrite !string_compare_lex. apply Ha.
  - intros x y z. rewrite !string_compare_lex. apply Ht.
Qed.

Lemma path_compare_laws : compare_laws path_compare.
Proof. apply lex_compare_laws, string_compare_laws. Qed.

Section CmpLe.
Context {A} (cmp : A -> A -> comparison) (laws : compare_laws cmp).

Lemma cmp_le_total : Total (cmp_le cmp).
Proof.
  intros x y. unfold cmp_le. rewrite (cmp_antisym _ laws x y).
  destruct (cmp y x); simpl; [left|right|left]; done.
Qed.

Lemma cmp_le_antisym : AntiSymm (=) (cmp_le cmp).
Proof.
  intros x y. unfold cmp_le. rewrite (cmp_antisym _ laws y x).
  destruct (cmp x y) eqn:E; simpl; try done.
  intros _ _. by apply (cmp_eq _ laws).
Qed.

Lemma cmp_le_trans : Transitive (cmp_le cmp).
Proof.
  intros x y z. unfold cmp_le.
  destruct (cmp x y) eqn:Exy; [| |done].
  - apply (cmp_eq _ laws) in Exy. by subst.
  - destruct (cmp y z) eqn:Eyz; [| |done].
    + apply (cmp_eq _ laws) in Eyz. subst. by rewrite Exy.
    + by rewrite (cmp_lt_trans _ laws _ _ _ Exy Eyz).
Qed.
End CmpLe.

#[global] Instance str_le_total : Total str_le := cmp_le_total _ string_compare_laws.
#[global] Instance str_le_antisym : AntiSymm (=) str_le :=
  cmp_le_antisym _ string_compare_laws.
#[global] Instance str_le_trans : Transitive str_le := cmp_le_trans _ string_compare_laws.
#[global] Instance path_le_total : Total path_le := cmp_le_total _ path_compare_laws.
#[global] Instance path_le_antisym : AntiSymm (=) path_le :=
  cmp_le_antisym _ path_compare_laws.
#[global] Instance path_le_trans : Transitive path_le := cmp_le_trans _ path_compare_laws.

#[global] Instance str_le_dec x y : Decision (str_le x y) := cmp_le_dec _ x y.
#[global] Instance path_le_dec x y : Decision (path_le x y) := cmp_le_dec _ x y.

Lemma sorted_strs_sorted xs : Sorted str_le (sorted_strs xs).
Proof. apply (Sorted_merge_sort str_le). Qed.

Lemma sorted_strs_perm xs : sorted_strs xs ≡ₚ xs.
Proof. apply (merge_sort_Permutation str_le). Qed.

Lemma sorted_paths_sorted xs : Sorted path_le (sorted_paths xs).
Proof. apply (Sorted_merge_sort path_le). Qed.

Lemma sorted_paths_perm xs : sorted_paths xs ≡ₚ xs.
Proof. apply (merge_sort_Permutation path_le). Qed.

(** Sorting forgets the order in which the elements came. *)
Lemma sorted_paths_canonical xs ys : xs ≡ₚ ys -> sorted_paths xs = sorted_paths ys.
Proof.
  intros H. apply (Sorted_unique path_le); try apply sorted_paths_sorted.
  by rewrite !sorted_paths_perm.
Qed.

Lemma sorted_strs_canonical xs ys : xs ≡ₚ ys -> sorted_strs xs = sorted_strs ys.
Proof.
  intros H. apply (Sorted_unique str_le); try apply sorted_strs_sorted.
  by rewrite !sorted_strs_perm.
Qed.

(** ** Pointers *)


Lemma str_app_empty_r (a : string) : a +:+ "" = a.
Proof.
  induction a as [|x a IH]; [done|].
  change (String x (a +:+ "") = String x a). by rewrite IH.
Qed.



(** ** The schema validator adapter on scalars *)

(** C6: a payload whose root is neither an object nor a list yields exactly
    one structural error, "{file}: expected object or list, got {type}.",
    whatever the validator: the schema is never consulted. *)
Theorem C6_scalar_root (v : validator) (payload : value) (file_path : path) :
  is_dict payload = false ->
  is_list payload = false ->
  validate_document v payload file_path
  = Ret [path_str file_path +:+ ": expected object or list, got "
           +:+ type_name payload +:+ "."].
Proof. by destruct payload. Qed.

(** ** Reference extraction *)

(** C9: a payload that is not an object references no rule identifier, a
    list of objects carrying [rules] or [default_rules] included, while a
    list-rooted document is still validated element by element. *)
Theorem C9_non_object_references_nothing :
  (forall payload, is_dict payload = false -> extract_referenced_rule_ids payload = ∅)
  /\ (forall items, extract_referenced_rule_ids (VList items) = ∅)
  /\ (forall (v : validator) fields file_path,
        validate_document v (VList [VDict fields]) file_path
        = (violations ← v (VDict fields);
           item_errors ← sorted_by_path violations;
           Ret (map (format_item_error file_path 0) item_errors))).
Proof.
  split; [by intros []|]. split; [done|].
  intros v fields file_path. simpl.
  destruct (v (VDict fields)) as [violations|]; simpl; [|done].
  by destruct (sorted_by_path violations).
Qed.

(** ** The suite-shape checker *)

(** C7: on a suite file that parses to
    [{expectation_suite_name: s, expectations: [{}]}] the checker returns
    exactly one error, which names [expectations/0] and the missing
    [expectation_type] field; on an absent suite file it returns no error. *)
Theorem C7_suite_shape (json_loads : string -> string + value)
    (fs : file_system) (p : path) :
  (forall raw,
      fs_lookup fs p = Some (File raw) ->
      json_loads raw = inr one_empty_expectation ->
      validate_ge_suite_shape json_loads fs p
      = [path_str p +:+ "[expectations/" +:+ "0"
           +:+ "]: missing expectation_type field."])
  /\ (fs_lookup fs p = None -> validate_ge_suite_shape json_loads fs p = []).
Proof.
  split.
  - intros raw Hfile Hjson.
    unfold validate_ge_suite_shape, path_exists, read_json, read_text.
    rewrite Hfile. rewrite bool_decide_eq_true_2 by eauto. simpl.
    rewrite Hjson. reflexivity.
  - intros Habsent. unfold validate_ge_suite_shape, path_exists.
    rewrite Habsent. rewrite bool_decide_eq_false_2; [done|].
    by intros [? ?].
Qed.

(** ** The report *)

Section Report.
Context (json_loads : string -> string + value).
Context (yaml_safe_load : string -> string + value).
Context (Draft202012Validator : value -> result validator).
Context (fs : file_system) (args : arguments).

Local Abbreviation run :=
  (main json_loads yaml_safe_load Draft202012Validator fs args).
Local Abbreviation targets_done :=
  (process_targets json_loads yaml_safe_load Draft202012Validator fs args
     initial_state (targets_of (project_root args))).
Local Abbreviation suite_errors :=
  (validate_ge_suite_shape json_loads fs (ge_suite_path (project_root args))).

Lemma main_report r :
  run = Ret r -> exists st, targets_done = Ret st /\ r = report args st suite_errors.
Proof.
  unfold main.
  destruct targets_done as [st|e]; simpl; [|done].
  intros [= <-]. eauto.
Qed.

Lemma report_fields st errs :
  errors (report args st errs) = all_errors st ++ errs
  /\ warnings (report args st errs)
     = reference_warnings (known_rule_ids st) (referenced_rule_ids st)
  /\ known (report args st errs) = known_rule_ids st
  /\ referenced (report args st errs) = referenced_rule_ids st.
Proof.
  unfold report. destruct (all_errors st ++ errs); [|done].
  by destruct (strict_references args && _).
Qed.

Lemma report_exit st errs :
  let r := report args st errs in
  (errors r <> [] \/ (warnings r <> [] /\ strict_references args = true) ->
   exit_code r = 1%Z)
  /\ (~ (errors r <> [] \/ (warnings r <> [] /\ strict_references args = true)) ->
      exit_code r = 0%Z /\ last (output r) = Some (nl +:+ "Validation passed.")).
Proof.
  unfold report.
  destruct (all_errors st ++ errs) as [|e es] eqn:Herrs; simpl.
  - destruct (strict_references args) eqn:Hstrict; simpl.
    + case_bool_decide as Hw; simpl.
      * rewrite Hw. split; [intros [?|[? _]]; done|].
        intros _. split; [done|]. simpl. apply last_snoc.
      * split; [done|]. intros H. exfalso. apply H. by right.
    + split; [intros [?|[_ ?]]; done|].
      intros _. split; [done|]. apply last_snoc.
  - split; [done|]. intros H. exfalso. apply H. by left.
Qed.

(** C1: a run that comes to its end exits with code 1 when the error
    sequence is non-empty, or when the warning sequence is non-empty and
    strict references are on; in every other case it exits with code 0 and
    the last line it prints is the confirmation. *)
Theorem C1_exit_status r :
  run = Ret r ->
  (errors r <> [] \/ (warnings r <> [] /\ strict_references args = true) ->
   exit_code r = 1%Z)
  /\ (~ (errors r <> [] \/ (warnings r <> [] /\ strict_references args = true)) ->
      exit_code r = 0%Z /\ last (output r) = Some (nl +:+ "Validation passed.")).
Proof.
  intros Hrun. destruct (main_report r Hrun) as (st & _ & ->).
  apply report_exit.
Qed.

(** C4: once the documents are processed, the warnings are one per missing
    identifier, in sorted order, where the missing identifiers are exactly
    the referenced ones that are not known; each warning has the text
    "Referenced rule ID not found in rules/core or rules/extensions: {id}";
    and the error sequence holds the errors of the documents and of the
    suite check only. *)
Theorem C4_reference_warnings r :
  run = Ret r ->
  exists st missing,
    targets_done = Ret st
    /\ known r = known_rule_ids st
    /\ referenced r = referenced_rule_ids st
    /\ Sorted str_le missing
    /\ NoDup missing
    /\ (forall id, id ∈ missing <-> id ∈ referenced r /\ id ∉ known r)
    /\ warnings r
       = map (fun id => "Referenced rule ID not found in rules/core or rules/extensions: "
                          +:+ id) missing
    /\ errors r = all_errors st ++ suite_errors.
Proof.
  intros Hrun. destruct (main_report r Hrun) as (st & Hst & ->).
  destruct (report_fields st suite_errors) as (He & Hw & Hk & Hr).
  exists st, (sorted_strs (elements (referenced_rule_ids st ∖ known_rule_ids st))).
  rewrite Hk, Hr. split_and!; try done.
  - apply sorted_strs_sorted.
  - rewrite sorted_strs_perm. apply NoDup_elements.
  - intros id. rewrite sorted_strs_perm, elem_of_elements.
    apply elem_of_difference.
Qed.
End Report.

(** ** The schema validator adapter on violations *)

(** C2: the adapter does raise.  On the YAML mapping [{1: x, b: y}] a
    validator reports one violation at [1] and one at [b]; sorting them
    compares the key [[b]] with the key [[1]], a string with an integer, and
    the [TypeError] leaves [validate_document].  [main] calls the adapter
    outside of any handler, so the run is aborted. *)
Theorem C2_mixed_keys_raise :
  no_string_properties mixed_keys
  = Ret [SchemaError [TInt 1] "'x' should not be valid under {'type': 'string'}";
         SchemaError [TStr "b"] "'y' should not be valid under {'type': 'string'}"]
  /\ validate_document no_string_properties mixed_keys
       ["repo"; "rules"; "datasets"; "sales.yaml"]
     = Raise (TypeError "'<' not supported between instances of 'str' and 'int'")
  /\ main Demo.json Demo.yaml Demo.compile Demo.mixed Demo.strict
     = Raise (TypeError "'<' not supported between instances of 'str' and 'int'").
Proof. split_and!; by vm_compute. Qed.

(** What the adapter does guarantee: when the keys of the violations can be
    compared with each other, the sort returns. *)

Lemma insert_by_path_returns e l :
  Forall (fun y => comparable (absolute_path y) (absolute_path e)) l ->
  returns (insert_by_path e l).
Proof.
  induction 1 as [|y l [b Hb] _ [l' IH]]; simpl; [by eexists|].
  rewrite Hb. simpl. destruct b; [|by eexists].
  rewrite IH. by eexists.
Qed.

Lemma insert_by_path_perm e l l' : insert_by_path e l = Ret l' -> l' ≡ₚ e :: l.
Proof.
  revert l'. induction l as [|y l IH]; simpl; intros l'.
  - by intros [= <-].
  - destruct (list_lt _ _) as [[]|]; simpl; [|by intros [= <-]|done].
    destruct (insert_by_path e l) as [l0|]; simpl; [|done].
    intros [= <-]. rewrite (IH l0 eq_refl). apply Permutation_swap.
Qed.

Lemma sorted_by_path_returns errs :
  (forall x y, x ∈ errs -> y ∈ errs -> comparable (absolute_path x) (absolute_path y)) ->
  exists l, sorted_by_path errs = Ret l /\ l ≡ₚ errs.
Proof.
  induction errs as [|e errs IH]; intros Hcmp; simpl; [by eexists|].
  destruct IH as (l & Hl & Hperm).
  { intros x y Hx Hy. apply Hcmp; by right. }
  rewrite Hl. simpl.
  destruct (insert_by_path_returns e l) as [l' Hl'].
  { apply Forall_forall. intros y Hy. apply Hcmp; [right|left].
    by rewrite <- Hperm. }
  exists l'. split; [done|].
  rewrite (insert_by_path_perm _ _ _ Hl'). by rewrite Hperm.
Qed.

Lemma resolve_cons t q v : resolve (t :: q) v = resolve [t] v ≫= resolve q.
Proof.
  destruct v as [| | | | |items|fields|]; simpl; try done.
  - destruct t as [|n]; [done|]. case_decide; [|done].
    by destruct (items !! Z.to_nat n).
  - by destruct (dict_get fields t).
Qed.

Lemma string_keyed_child t v w :
  string_keyed v -> resolve [t] v = Some w -> string_keyed w.
Proof.
  intros Hv Hw q fields Hq. apply (Hv (t :: q)).
  by rewrite resolve_cons, Hw.
Qed.

Lemma dict_get_key fields t w :
  dict_get fields t = Some w -> exists kv, kv ∈ fields /\ fst kv = t.
Proof.
  induction fields as [|[k x] fields IH]; simpl; [done|].
  case_decide as Hk.
  - intros _. exists (k, x). split; [left|done].
  - intros (kv & ? & ?)%IH. exists kv. split; [by right|done].
Qed.

(** The first token of a real path in a string-keyed document is a string
    below a mapping and an integer below a sequence. *)
Lemma first_tokens_comparable v x y :
  string_keyed v ->
  is_Some (resolve [x] v) -> is_Some (resolve [y] v) ->
  returns (token_lt x y).
Proof.
  intros Hv [wx Hx] [wy Hy].
  destruct v as [| | | | |items|fields|]; simpl in Hx, Hy; try done.
  - destruct x, y; try done. by eexists.
  - pose proof (Hv [] fields eq_refl) as Hkeys.
    destruct (dict_get fields x) as [ux|] eqn:Hgx; [|done].
    destruct (dict_get fields y) as [uy|] eqn:Hgy; [|done].
    apply dict_get_key in Hgx as (kx & Hkx & <-).
    apply dict_get_key in Hgy as (ky & Hky & <-).
    rewrite Forall_forall in Hkeys.
    pose proof (Hkeys _ Hkx) as Hsx. pose proof (Hkeys _ Hky) as Hsy.
    destruct (fst kx), (fst ky); try done. by eexists.
Qed.

Lemma real_paths_comparable a : forall b v,
  string_keyed v ->
  is_Some (resolve a v) -> is_Some (resolve b v) ->
  comparable a b.
Proof.
  unfold comparable.
  induction a as [|x a IH]; intros [|y b] v Hv Ha Hb; simpl; try by eexists.
  rewrite resolve_cons in Ha, Hb.
  destruct (resolve [x] v) as [wx|] eqn:Hx; [|by destruct Ha].
  destruct (resolve [y] v) as [wy|] eqn:Hy; [|by destruct Hb].
  case_decide as Hxy.
  - subst y. rewrite Hx in Hy. injection Hy as <-.
    apply (IH b wx); [by eapply string_keyed_child|done..].
  - apply (first_tokens_comparable v); [done|by rewrite Hx|by rewrite Hy].
Qed.

Lemma dict_get_elem fields k x : (k, x) ∈ fields -> is_Some (dict_get fields k).
Proof.
  induction fields as [|[k' x'] fields IH]; simpl; [by intros ?%elem_of_nil|].
  intros [[= -> ->]|Hin]%elem_of_cons; case_decide; by eauto.
Qed.

Lemma dict_get_field fields k x : dict_get fields k = Some x -> (k, x) ∈ fields.
Proof.
  induction fields as [|[k' x'] fields IH]; simpl; [done|].
  case_decide as Hk.
  - intros [= ->]. subst k'. left.
  - intros Hx. right. by apply IH.
Qed.

(** The test that can be run is sound. *)
Lemma string_keyedb_sound v : string_keyedb v = true -> string_keyed v.
Proof.
  intros Hv q. revert v Hv.
  induction q as [|t q IH]; intros v Hv fields; simpl.
  - intros [= ->]. simpl in Hv. rewrite forallb_forall in Hv.
    apply Forall_forall. intros [k x] Hin%list_elem_of_In.
    by apply Hv, andb_true_iff in Hin as [Hk _].
  - destruct v as [| | | | |items|fs|]; try done; simpl in Hv;
      rewrite forallb_forall in Hv.
    + destruct t as [|n]; [done|]. case_decide; [|done].
      destruct (items !! Z.to_nat n) as [w|] eqn:Hw; simpl; [|done].
      apply IH, Hv, list_elem_of_In. by eapply list_elem_of_lookup_2.
    + destruct (dict_get fs t) as [w|] eqn:Hw; simpl; [|done].
      apply IH. apply dict_get_field, list_elem_of_In, Hv in Hw.
      by apply andb_true_iff in Hw as [_ Hw].
Qed.

Lemma no_string_properties_real : reports_real_paths no_string_properties.
Proof.
  intros instance violations e [= <-] He.
  destruct instance as [| | | | | |fields|]; try by apply elem_of_nil in He.
  apply list_elem_of_In, in_flat_map in He as ([k x] & Hin%list_elem_of_In & He).
  destruct x as [| | | |s| | |]; try done.
  destruct He as [<-|[]]. simpl.
  destruct (dict_get_elem fields k _ Hin) as [w ->]. by eexists.
Qed.

Lemma no_string_properties_total : validates_every_document no_string_properties.
Proof. intros instance _. by eexists. Qed.



Lemma validate_object_returns (v : validator) fields file_path violations :
  v (VDict fields) = Ret violations ->
  (forall x y, x ∈ violations -> y ∈ violations ->
               comparable (absolute_path x) (absolute_path y)) ->
  returns (validate_document v (VDict fields) file_path).
Proof.
  intros Hv Hcmp. destruct (sorted_by_path_returns _ Hcmp) as (l & Hl & _).
  simpl. rewrite Hv. simpl. rewrite Hl. by eexists.
Qed.

Lemma string_keyed_item items i item :
  string_keyed (VList items) -> items !! i = Some item -> string_keyed item.
Proof.
  intros Hv Hi. apply (string_keyed_child (TInt (Z.of_nat i)) (VList items)); [done|].
  simpl. rewrite decide_True by lia. by rewrite Nat2Z.id, Hi.
Qed.

Lemma validate_items_returns (v : validator) file_path items :
  (forall item, item ∈ items -> string_keyed item) ->
  validates_every_document v ->
  reports_real_paths v ->
  forall index errors, returns (validate_items v file_path index items errors).
Proof.
  intros Hitems Htotal Hreal.
  induction items as [|item items IH]; intros index errors; simpl; [by eexists|].
  assert (forall item', item' ∈ items -> string_keyed item') as Hrest.
  { intros item' ?. apply Hitems. by right. }
  destruct (is_dict item); [|by apply IH].
  destruct (Htotal item) as [violations Hv]; [apply Hitems; left|].
  rewrite Hv. simpl.
  destruct (sorted_by_path_returns violations) as (l & -> & _); [|by apply IH].
  intros x y Hx Hy.
  apply (real_paths_comparable _ _ item); [apply Hitems; left|by eapply Hreal..].
Qed.

(** On a document with string keys only, and with a validator that does not
    raise on such documents and locates its violations inside the instance,
    the adapter returns. *)
Lemma validate_document_returns (v : validator) payload file_path :
  string_keyed payload ->
  validates_every_document v ->
  reports_real_paths v ->
  returns (validate_document v payload file_path).
Proof.
  intros Hkeys Htotal Hreal.
  destruct payload as [| | | | |items|fields|]; try by eexists.
  - apply validate_items_returns; [|done..].
    intros item [i Hi]%list_elem_of_lookup. by eapply string_keyed_item.
  - destruct (Htotal (VDict fields) Hkeys) as [violations Hv].
    apply (validate_object_returns v fields file_path violations Hv).
    intros x y Hx Hy.
    apply (real_paths_comparable _ _ (VDict fields)); [done|by eapply Hreal..].
Qed.

(** ** Targets without a usable schema *)

Lemma process_targets_app json_loads yaml_safe_load mk fs args st ts1 ts2 :
  process_targets json_loads yaml_safe_load mk fs args st (ts1 ++ ts2)
  = (st1 ← process_targets json_loads yaml_safe_load mk fs args st ts1;
     process_targets json_loads yaml_safe_load mk fs args st1 ts2).
Proof.
  revert st. induction ts1 as [|t ts1 IH]; intros st; simpl; [done|].
  destruct (process_target _ _ _ _ _ st t); simpl; auto.
Qed.

Section SchemaSkip.
Context (json_loads : string -> string + value).
Context (yaml_safe_load : string -> string + value).
Context (Draft202012Validator : value -> result validator).
Context (fs : file_system) (args : arguments).

Local Abbreviation target_step :=
  (process_target json_loads yaml_safe_load Draft202012Validator fs args).
Local Abbreviation targets_loop :=
  (process_targets json_loads yaml_safe_load Draft202012Validator fs args).

(** C3: a target whose schema file is absent, or cannot be read and parsed,
    is skipped with exactly one error, which names its schema file.  The
    step never raises, the targets before it are processed as without it,
    and the targets after it are processed from the state it leaves. *)
Theorem C3_schema_skip (target : ValidationTarget) :
  path_exists fs (schema_path target) = false
  \/ (exists exc, read_json json_loads fs (schema_path target) = inl exc) ->
  exists e,
    (e = "Missing schema file: " +:+ path_str (schema_path target)
     \/ exists exc, e = "Unable to parse schema " +:+ path_str (schema_path target)
                          +:+ ": " +:+ exc)
    /\ (forall st, target_step st target = Ret (add_errors st [e]))
    /\ (forall st before after,
          targets_loop st (before ++ target :: after)
          = (st1 ← targets_loop st before;
             targets_loop (add_errors st1 [e]) after)).
Proof.
  intros Hbad.
  assert (exists e,
    (e = "Missing schema file: " +:+ path_str (schema_path target)
     \/ exists exc, e = "Unable to parse schema " +:+ path_str (schema_path target)
                          +:+ ": " +:+ exc)
    /\ forall st, target_step st target = Ret (add_errors st [e]))
    as (e & He & Hstep).
  { unfold process_target.
    destruct (path_exists fs (schema_path target)) eqn:Hex; simpl.
    - destruct Hbad as [?|[exc Hexc]]; [done|]. rewrite Hexc. eauto.
    - eauto. }
  exists e. split_and!; [done..|].
  intros st before after. rewrite process_targets_app.
  destruct (targets_loop st before) as [st1|]; simpl; [|done].
  by rewrite Hstep.
Qed.
End SchemaSkip.

(** C3 as stated fails: the dataset-config schema file holds the text [5],
    which parses as JSON and is no schema definition.  The target is not
    skipped, no error names its schema file, and the run is aborted by the
    exception of the schema library, be it raised when the validator is built
    or when it is first used. *)
Lemma C3_invalid_schema_not_skipped :
  path_exists Sample.invalid_schema (schema_path Sample.datasets) = true
  /\ read_json Sample.json Sample.invalid_schema (schema_path Sample.datasets)
     = inr (VInt 5)
  /\ Demo.is_schema_definition (VInt 5) = false
  /\ process_target Sample.json Demo.yaml Demo.compile Sample.invalid_schema
       Demo.lenient initial_state Sample.datasets
     = Raise (AttributeError "'int' object has no attribute 'get'")
  /\ main Sample.json Demo.yaml Demo.compile Sample.invalid_schema Demo.lenient
     = Raise (AttributeError "'int' object has no attribute 'get'")
  /\ main Sample.json Demo.yaml Demo.deferred Sample.invalid_schema Demo.lenient
     = Raise (AttributeError "'int' object has no attribute 'get'").
Proof. split_and!; by vm_compute. Qed.

(** ** File discovery *)

Lemma strongly_sorted_filter {A} (R : relation A) (P : A -> Prop)
    `{forall x, Decision (P x)} l :
  StronglySorted R l -> StronglySorted R (filter P l).
Proof.
  induction 1 as [|x l Hl IH Hx]; [constructor|].
  rewrite filter_cons. case_decide; [|done].
  constructor; [done|].
  apply Forall_forall. intros y [_ Hy]%list_elem_of_filter.
  by eapply Forall_forall in Hx.
Qed.

Lemma sorted_filter {A} (R : relation A) `{!Transitive R} (P : A -> Prop)
    `{forall x, Decision (P x)} l :
  Sorted R l -> Sorted R (filter P l).
Proof.
  intros Hl. apply StronglySorted_Sorted, strongly_sorted_filter.
  by apply Sorted_StronglySorted.
Qed.

Lemma fs_lookup_key fs p e : fs_lookup fs p = Some e -> p ∈ map fst fs.
Proof.
  induction fs as [|[q e'] fs IH]; simpl; [done|].
  case_decide; [subst; intros _; left|intros Hrest; right; auto].
Qed.

Lemma find_files_single fs base :
  find_files fs [base]
  = if path_exists fs base
    then filter (fun f => supported fs f = true) (sorted_paths (rglob fs base))
    else [].
Proof. unfold find_files. simpl. by destruct (path_exists fs base). Qed.

Lemma find_files_single_sorted fs base : Sorted path_le (find_files fs [base]).
Proof.
  rewrite find_files_single.
  destruct (path_exists fs base); [|constructor].
  apply (sorted_filter path_le), sorted_paths_sorted.
Qed.

Lemma find_files_from_concat fs paths : forall files,
  find_files_from fs paths files
  = files ++ concat (map (fun base => find_files fs [base]) paths).
Proof.
  induction paths as [|base paths IH]; intros files; simpl.
  - by rewrite app_nil_r.
  - rewrite find_files_single.
    destruct (path_exists fs base); rewrite IH; [|done].
    by rewrite <- app_assoc.
Qed.

Lemma find_files_single_elem fs base f :
  f ∈ find_files fs [base]
  <-> fs_lookup fs base = Some Dir /\ below base f
      /\ path_is_file fs f = true
      /\ str_lower (path_suffix f) ∈ SUPPORTED_EXTENSIONS.
Proof.
  rewrite find_files_single. unfold path_exists, rglob, supported.
  destruct (fs_lookup fs base) as [[raw|]|] eqn:Hbase.
  - rewrite bool_decide_eq_true_2 by eauto.
    rewrite sorted_paths_perm, filter_nil. split; [by intros ?%elem_of_nil|].
    by intros [? _].
  - rewrite bool_decide_eq_true_2 by eauto.
    rewrite list_elem_of_filter, sorted_paths_perm, list_elem_of_filter.
    rewrite andb_true_iff, bool_decide_eq_true. split.
    + intros [[? ?] [? _]]. done.
    + intros (_ & Hbelow & Hfile & Hext). split_and!; try done.
      unfold path_is_file in Hfile.
      destruct (fs_lookup fs f) as [e|] eqn:Hf; [|done].
      by eapply fs_lookup_key.
  - rewrite bool_decide_eq_false_2 by (by intros [? ?]).
    split; [by intros ?%elem_of_nil|]. by intros [? _].
Qed.

Lemma elem_of_concat_map {A B} (g : A -> list B) (l : list A) (y : B) :
  y ∈ concat (map g l) <-> exists x, x ∈ l /\ y ∈ g x.
Proof.
  induction l as [|x l IH]; simpl.
  - split; [by intros ?%elem_of_nil|]. by intros (? & ?%elem_of_nil & _).
  - rewrite elem_of_app, IH. split.
    + intros [?|(x' & ? & ?)]; [exists x|exists x']; split; try done;
        [left|by right].
    + intros (x' & [->|?]%elem_of_cons & ?); [by left|right; eauto].
Qed.

(** C5, as the code has it: the files found are the regular files with a
    supported extension below the search paths that are directories; each
    search path contributes its files in lexicographic order, and the
    contributions follow each other in the order of the search paths; a search
    path that does not exist contributes nothing. *)
Theorem C5_find_files (fs : file_system) (paths : list path) :
  find_files fs paths = concat (map (fun base => find_files fs [base]) paths)
  /\ (forall base, Sorted path_le (find_files fs [base]))
  /\ (forall f,
        f ∈ find_files fs paths
        <-> exists base,
              base ∈ paths /\ fs_lookup fs base = Some Dir /\ below base f
              /\ path_is_file fs f = true
              /\ str_lower (path_suffix f) ∈ SUPPORTED_EXTENSIONS)
  /\ (forall base, path_exists fs base = false -> find_files fs [base] = []).
Proof.
  assert (find_files fs paths
          = concat (map (fun base => find_files fs [base]) paths)) as Hcat.
  { unfold find_files at 1. by rewrite find_files_from_concat. }
  split_and!.
  - done.
  - apply find_files_single_sorted.
  - intros f. rewrite Hcat, elem_of_concat_map.
    by setoid_rewrite find_files_single_elem.
  - intros base Hmissing. by rewrite find_files_single, Hmissing.
Qed.

(** For the three registered targets the search paths are given in
    lexicographic order, so there the files of a target are in lexicographic
    order as a whole. *)
Lemma lex_compare_app {A} (cmp : A -> A -> comparison) (p a b : list A) :
  compare_laws cmp -> lex_compare cmp (p ++ a) (p ++ b) = lex_compare cmp a b.
Proof.
  intros laws. induction p as [|x p IH]; simpl; [done|].
  by rewrite (cmp_refl _ laws).
Qed.

Lemma core_before_extensions root f1 f2 :
  below (root ++ ["rules"; "core"]) f1 ->
  below (root ++ ["rules"; "extensions"]) f2 ->
  path_le f1 f2.
Proof.
  intros [[k1 ->] _] [[k2 ->] _]. unfold path_le, cmp_le, path_compare.
  rewrite <- !app_assoc.
  by rewrite (lex_compare_app _ root _ _ string_compare_laws).
Qed.

Lemma registered_targets_sorted fs root :
  Forall (fun target => Sorted path_le (find_files fs (search_paths target)))
         (targets_of root).
Proof.
  pose proof (find_files_single_sorted fs) as Hone.
  repeat constructor; simpl; try apply Hone.
  unfold find_files. rewrite find_files_from_concat. simpl. rewrite app_nil_r.
  apply StronglySorted_Sorted, StronglySorted_app_2.
  - intros f1 f2 (_ & H1 & _)%find_files_single_elem
                 (_ & H2 & _)%find_files_single_elem.
    by eapply core_before_extensions.
  - apply Sorted_StronglySorted; [apply _|apply Hone].
  - apply Sorted_StronglySorted; [apply _|apply Hone].
Qed.

(** C5 as stated fails: with the search paths [rules/datasets] and
    [rules/core], in this order, the files of [datasets] come before those of
    [core], and the sequence as a whole is not in lexicographic order. *)
Lemma C5_not_sorted_as_a_whole :
  find_files Demo.tree [["repo"; "rules"; "datasets"]; ["repo"; "rules"; "core"]]
  = [["repo"; "rules"; "datasets"; "sales.json"];
     ["repo"; "rules"; "core"; "broken.yml"];
     ["repo"; "rules"; "core"; "nulls.YAML"]]
  /\ ~ Sorted path_le
         (find_files Demo.tree
            [["repo"; "rules"; "datasets"]; ["repo"; "rules"; "core"]]).
Proof.
  split; [by vm_compute|].
  apply (bool_decide_eq_false_1 _). by vm_compute.
Qed.

(** ** Determinism *)

(** A run reads the file tree through [fs_lookup] and through the
    enumeration of its paths.  Two enumerations of one tree agree on the
    first and are permutations of each other on the second. *)

Lemma fs_lookup_none fs p : fs_lookup fs p = None <-> p ∉ map fst fs.
Proof.
  induction fs as [|[q e] fs IH]; simpl.
  - split; [intros _; apply not_elem_of_nil|done].
  - rewrite not_elem_of_cons, <- IH. case_decide as Hq.
    + split; [done|]. by intros [? _].
    + split; [by split|]. by intros [_ ?].
Qed.

Lemma fs_lookup_some fs p e :
  NoDup (map fst fs) -> fs_lookup fs p = Some e <-> (p, e) ∈ fs.
Proof.
  induction fs as [|[q e'] fs IH]; simpl; intros Hnd.
  - split; [done|]. by intros ?%elem_of_nil.
  - apply NoDup_cons in Hnd as [Hq Hnd]. rewrite elem_of_cons.
    case_decide as Hqp.
    + subst q. split; [intros [= ->]; by left|].
      intros [[= ->]|Hin]; [done|]. exfalso. apply Hq.
      apply list_elem_of_fmap. by exists (p, e).
    + rewrite (IH Hnd). split; [by right|]. intros [[= ? ?]|?]; done.
Qed.

Lemma fs_lookup_perm fs1 fs2 p :
  NoDup (map fst fs1) -> fs1 ≡ₚ fs2 -> fs_lookup fs1 p = fs_lookup fs2 p.
Proof.
  intros Hnd Hperm.
  assert (map fst fs1 ≡ₚ map fst fs2) as Hkeys by (by apply fmap_Permutation).
  assert (NoDup (map fst fs2)) as Hnd2 by (by rewrite <- Hkeys).
  destruct (fs_lookup fs1 p) as [e|] eqn:H1; symmetry.
  - apply (fs_lookup_some _ _ _ Hnd2). rewrite <- Hperm.
    by apply (fs_lookup_some _ _ _ Hnd).
  - apply fs_lookup_none. rewrite <- Hkeys. by apply fs_lookup_none.
Qed.

Section SameTree.
Context (json_loads : string -> string + value).
Context (yaml_safe_load : string -> string + value).
Context (Draft202012Validator : value -> result validator).
Context (args : arguments).
Context (fs1 fs2 : file_system).
Context (Hlookup : forall p, fs_lookup fs1 p = fs_lookup fs2 p).
Context (Hkeys : map fst fs1 ≡ₚ map fst fs2).

Lemma path_exists_same p : path_exists fs1 p = path_exists fs2 p.
Proof. unfold path_exists. by rewrite Hlookup. Qed.

Lemma supported_same p : supported fs1 p = supported fs2 p.
Proof. unfold supported, path_is_file. by rewrite Hlookup. Qed.

Lemma read_text_same p : read_text fs1 p = read_text fs2 p.
Proof. unfold read_text. by rewrite Hlookup. Qed.

Lemma rglob_same base : rglob fs1 base ≡ₚ rglob fs2 base.
Proof.
  unfold rglob. rewrite Hlookup.
  destruct (fs_lookup fs2 base) as [[|]|]; [done| |done].
  by rewrite Hkeys.
Qed.

Lemma find_files_from_same paths : forall files,
  find_files_from fs1 paths files = find_files_from fs2 paths files.
Proof.
  induction paths as [|base paths IH]; intros files; simpl; [done|].
  rewrite path_exists_same, (sorted_paths_canonical _ _ (rglob_same base)).
  destruct (path_exists fs2 base); [|done].
  rewrite IH. do 2 f_equal. apply list_filter_iff.
  intros f. by rewrite supported_same.
Qed.

Lemma read_json_same p : read_json json_loads fs1 p = read_json json_loads fs2 p.
Proof. unfold read_json. by rewrite read_text_same. Qed.

Lemma load_payload_same p :
  load_payload json_loads yaml_safe_load fs1 p
  = load_payload json_loads yaml_safe_load fs2 p.
Proof. unfold load_payload. by rewrite read_text_same. Qed.

Lemma validate_ge_suite_shape_same p :
  validate_ge_suite_shape json_loads fs1 p = validate_ge_suite_shape json_loads fs2 p.
Proof.
  unfold validate_ge_suite_shape. by rewrite path_exists_same, read_json_same.
Qed.

Lemma process_file_same target v st f :
  process_file json_loads yaml_safe_load fs1 args target v st f
  = process_file json_loads yaml_safe_load fs2 args target v st f.
Proof. unfold process_file. by rewrite load_payload_same. Qed.

Lemma process_files_same target v files : forall st,
  process_files json_loads yaml_safe_load fs1 args target v st files
  = process_files json_loads yaml_safe_load fs2 args target v st files.
Proof.
  induction files as [|f files IH]; intros st; simpl; [done|].
  rewrite process_file_same.
  destruct (process_file _ _ fs2 _ _ _ _ _); simpl; auto.
Qed.

Lemma process_targets_same targets : forall st,
  process_targets json_loads yaml_safe_load Draft202012Validator fs1 args st targets
  = process_targets json_loads yaml_safe_load Draft202012Validator fs2 args st targets.
Proof.
  induction targets as [|t targets IH]; intros st; simpl; [done|].
  unfold process_target, find_files.
  rewrite path_exists_same, read_json_same, find_files_from_same.
  destruct (negb _); simpl; [done|].
  destruct (read_json _ _ _) as [exc|schema]; simpl; [done|].
  destruct (Draft202012Validator schema) as [v|]; simpl; [|done].
  rewrite process_files_same.
  destruct (process_files _ _ fs2 _ _ _ _ _); simpl; auto.
Qed.

Lemma main_same :
  main json_loads yaml_safe_load Draft202012Validator fs1 args
  = main json_loads yaml_safe_load Draft202012Validator fs2 args.
Proof.
  unfold main. by rewrite process_targets_same, validate_ge_suite_shape_same.
Qed.
End SameTree.

(** C8: two runs over the same file tree with the same flags end alike: the
    same error sequence, the same warning sequence and the same exit code, or
    the same exception.  The tree is the same when each path names one entry
    and the two runs see the same entries, in whatever order the operating
    system enumerates them. *)
Theorem C8_deterministic (json_loads yaml_safe_load : string -> string + value)
    (Draft202012Validator : value -> result validator) (args : arguments)
    (fs1 fs2 : file_system) :
  NoDup (map fst fs1) ->
  fs1 ≡ₚ fs2 ->
  main json_loads yaml_safe_load Draft202012Validator fs1 args
  = main json_loads yaml_safe_load Draft202012Validator fs2 args.
Proof.
  intros Hnd Hperm. apply main_same.
  - intros p. by apply fs_lookup_perm.
  - by apply fmap_Permutation.
Qed.

(** ** Runs that come to their end *)

Lemma find_files_below fs paths f :
  f ∈ find_files fs paths -> exists base, base ∈ paths /\ below base f.
Proof.
  unfold find_files. rewrite find_files_from_concat. simpl.
  intros (base & Hbase & Hf)%elem_of_concat_map.
  apply find_files_single_elem in Hf as (_ & Hbelow & _). eauto.
Qed.

Section Returns.
Context (json_loads : string -> string + value).
Context (yaml_safe_load : string -> string + value).
Context (Draft202012Validator : value -> result validator).
Context (fs : file_system) (args : arguments).

Lemma process_file_returns target v st f :
  (forall payload,
     load_payload json_loads yaml_safe_load fs f = inr payload ->
     string_keyed payload) ->
  validates_every_document v ->
  reports_real_paths v ->
  project_root args `prefix_of` f ->
  returns (process_file json_loads yaml_safe_load fs args target v st f).
Proof.
  intros Hkeys Hv Hreal Hroot. unfold process_file, relative_to.
  rewrite decide_True by done.
  set (st' := if verbose args then _ else _).
  assert (exists st0, st' = Ret st0) as [st0 ->].
  { unfold st'. destruct (verbose args); by eexists. }
  simpl.
  destruct (load_payload _ _ _ f) as [exc|payload] eqn:Hload; [by eexists|].
  destruct (validate_document_returns v payload f) as [errs ->]; [by apply Hkeys|done..|].
  simpl. case_decide; by eexists.
Qed.

Lemma process_files_returns target v files :
  validates_every_document v ->
  reports_real_paths v ->
  Forall (fun f =>
            project_root args `prefix_of` f
            /\ forall payload,
                 load_payload json_loads yaml_safe_load fs f = inr payload ->
                 string_keyed payload) files ->
  forall st, returns (process_files json_loads yaml_safe_load fs args target v st files).
Proof.
  intros Hv Hreal.
  induction 1 as [|f files [Hf Hkeys] _ IH]; intros st; simpl; [by eexists|].
  destruct (process_file_returns target v st f Hkeys Hv Hreal Hf) as [st' ->]. apply IH.
Qed.

(** A target is processed to its end when the documents it loads have string
    keys only and the schema library copes with its schema. *)
Lemma process_target_returns st target :
  (forall payload,
     loads json_loads yaml_safe_load fs target payload -> string_keyed payload) ->
  (forall schema,
     read_json json_loads fs (schema_path target) = inr schema ->
     usable_schema Draft202012Validator schema) ->
  Forall (fun base => project_root args `prefix_of` base) (search_paths target) ->
  returns (process_target json_loads yaml_safe_load Draft202012Validator fs args
             st target).
Proof.
  intros Hkeys Hlib Hpaths. unfold process_target.
  destruct (negb _); [by eexists|].
  destruct (read_json _ _ _) as [exc|schema] eqn:Hschema; [by eexists|].
  destruct (Hlib schema eq_refl) as (v & -> & Hv & Hreal). simpl.
  apply process_files_returns; [done..|].
  apply Forall_forall. intros f Hf. split.
  - apply find_files_below in Hf as (base & Hbase & [Hprefix _]).
    rewrite Forall_forall in Hpaths. by etrans; [apply Hpaths|].
  - intros payload Hload. apply Hkeys. split; [by eexists|]. by exists f.
Qed.

Lemma process_targets_returns targets :
  Forall (fun t =>
            (forall payload,
               loads json_loads yaml_safe_load fs t payload -> string_keyed payload)
            /\ (forall schema,
                  read_json json_loads fs (schema_path t) = inr schema ->
                  usable_schema Draft202012Validator schema)
            /\ Forall (fun base => project_root args `prefix_of` base)
                      (search_paths t)) targets ->
  forall st, returns (process_targets json_loads yaml_safe_load Draft202012Validator
                        fs args st targets).
Proof.
  induction 1 as [|t targets (Hkeys & Hlib & Ht) _ IH]; intros st; simpl; [by eexists|].
  destruct (process_target_returns st t Hkeys Hlib Ht) as [st' ->]. apply IH.
Qed.

(** The run reaches its report when the documents it loads have string keys
    only and the schema library copes with the schemas it reads. *)
Lemma main_returns :
  (forall target payload,
     target ∈ targets_of (project_root args) ->
     loads json_loads yaml_safe_load fs target payload -> string_keyed payload) ->
  (forall target schema,
     target ∈ targets_of (project_root args) ->
     read_json json_loads fs (schema_path target) = inr schema ->
     usable_schema Draft202012Validator schema) ->
  returns (main json_loads yaml_safe_load Draft202012Validator fs args).
Proof.
  intros Hkeys Hlib. unfold main.
  destruct (process_targets_returns (targets_of (project_root args)))
    with (st := initial_state) as [st ->]; [|by eexists].
  apply Forall_forall. intros t Ht. split_and!; [by eauto..|].
  revert Ht. unfold targets_of. rewrite !elem_of_cons, elem_of_nil.
  intros [-> | [-> | [-> | []]]]; simpl; repeat constructor; by apply prefix_app_r.
Qed.
End Returns.

(** ** The theorems at work on the test tree *)

Lemma C6_scalar_root_witness :
  validate_document no_string_properties (VStr "email")
    ["repo"; "rules"; "semantic_types"; "email.yaml"]
  = Ret ["/repo/rules/semantic_types/email.yaml: expected object or list, got str."].
Proof.
  apply (C6_scalar_root no_string_properties (VStr "email")
           ["repo"; "rules"; "semantic_types"; "email.yaml"]); reflexivity.
Defined.

Lemma C9_non_object_references_nothing_witness :
  extract_referenced_rule_ids
    (VList [VDict [(TStr "rules", VList [VDict [(TStr "rule_id", VStr "R9")]]);
                   (TStr "default_rules", VList [VStr "R1"])]])
  = ∅.
Proof.
  apply (proj1 C9_non_object_references_nothing). reflexivity.
Defined.

Lemma C7_suite_shape_witness :
  validate_ge_suite_shape Demo.json Demo.tree (ge_suite_path Demo.root)
  = ["/repo/integrations/great_expectations/suites/core_suite.json[expectations/0]: missing expectation_type field."]
  /\ validate_ge_suite_shape Demo.json Demo.small (ge_suite_path Demo.root) = [].
Proof.
  split.
  - apply (proj1 (C7_suite_shape Demo.json Demo.tree (ge_suite_path Demo.root))
             "suite"); reflexivity.
  - apply (proj2 (C7_suite_shape Demo.json Demo.small (ge_suite_path Demo.root)));
      reflexivity.
Defined.

Lemma C1_exit_status_witness :
  exit_code (Demo.run Demo.tree Demo.lenient) = 1%Z
  /\ exit_code (Demo.run Demo.small Demo.strict) = 1%Z
  /\ exit_code (Demo.run Demo.small Demo.lenient) = 0%Z
  /\ last (output (Demo.run Demo.small Demo.lenient))
     = Some (nl +:+ "Validation passed.").
Proof.
  split_and!.
  - apply (C1_exit_status Demo.json Demo.yaml Demo.compile Demo.tree Demo.lenient
             (Demo.run Demo.tree Demo.lenient)); [by vm_compute|].
    left. by vm_compute.
  - apply (C1_exit_status Demo.json Demo.yaml Demo.compile Demo.small Demo.strict
             (Demo.run Demo.small Demo.strict)); [by vm_compute|].
    right. split; by vm_compute.
  - apply (C1_exit_status Demo.json Demo.yaml Demo.compile Demo.small Demo.lenient
             (Demo.run Demo.small Demo.lenient)); [by vm_compute|].
    intros [Herr|[_ Hstrict]]; [by vm_compute in Herr|by vm_compute in Hstrict].
  - apply (C1_exit_status Demo.json Demo.yaml Demo.compile Demo.small Demo.lenient
             (Demo.run Demo.small Demo.lenient)); [by vm_compute|].
    intros [Herr|[_ Hstrict]]; [by vm_compute in Herr|by vm_compute in Hstrict].
Defined.

Lemma C4_reference_warnings_witness :
  exists st missing,
    process_targets Demo.json Demo.yaml Demo.compile Demo.small Demo.lenient
      initial_state (targets_of Demo.root) = Ret st
    /\ known (Demo.run Demo.small Demo.lenient) = known_rule_ids st
    /\ referenced (Demo.run Demo.small Demo.lenient) = referenced_rule_ids st
    /\ Sorted str_le missing
    /\ NoDup missing
    /\ (forall id, id ∈ missing
                   <-> id ∈ referenced (Demo.run Demo.small Demo.lenient)
                       /\ id ∉ known (Demo.run Demo.small Demo.lenient))
    /\ warnings (Demo.run Demo.small Demo.lenient)
       = map (fun id => "Referenced rule ID not found in rules/core or rules/extensions: "
                          +:+ id) missing
    /\ errors (Demo.run Demo.small Demo.lenient)
       = all_errors st
           ++ validate_ge_suite_shape Demo.json Demo.small (ge_suite_path Demo.root).
Proof.
  apply (C4_reference_warnings Demo.json Demo.yaml Demo.compile Demo.small
           Demo.lenient (Demo.run Demo.small Demo.lenient)).
  by vm_compute.
Defined.

Lemma C3_schema_skip_witness :
  exists e,
    (e = "Missing schema file: " +:+ path_str (schema_path Demo.semantic_types)
     \/ exists exc, e = "Unable to parse schema "
                          +:+ path_str (schema_path Demo.semantic_types)
                          +:+ ": " +:+ exc)
    /\ (forall st,
          process_target Demo.json Demo.yaml Demo.compile Demo.tree Demo.lenient
            st Demo.semantic_types
          = Ret (add_errors st [e]))
    /\ (forall st before after,
          process_targets Demo.json Demo.yaml Demo.compile Demo.tree Demo.lenient
            st (before ++ Demo.semantic_types :: after)
          = (st1 ← process_targets Demo.json Demo.yaml Demo.compile Demo.tree
                     Demo.lenient st before;
             process_targets Demo.json Demo.yaml Demo.compile Demo.tree
               Demo.lenient (add_errors st1 [e]) after)).
Proof.
  apply (C3_schema_skip Demo.json Demo.yaml Demo.compile Demo.tree Demo.lenient
           Demo.semantic_types).
  left. by vm_compute.
Defined.

Lemma C5_find_files_witness :
  find_files Demo.tree [["repo"; "rules"; "extensions"]] = []
  /\ Sorted path_le (find_files Demo.tree [["repo"; "rules"; "core"]]).
Proof.
  split.
  - apply (proj2 (proj2 (proj2 (C5_find_files Demo.tree [])))). by vm_compute.
  - apply (proj1 (proj2 (C5_find_files Demo.tree []))).
Defined.

Lemma C8_deterministic_witness :
  main Demo.json Demo.yaml Demo.compile Demo.tree Demo.lenient
  = main Demo.json Demo.yaml Demo.compile Demo.tree' Demo.lenient.
Proof.
  apply (C8_deterministic Demo.json Demo.yaml Demo.compile Demo.lenient
           Demo.tree Demo.tree').
  - apply (bool_decide_unpack _). by vm_compute.
  - apply Permutation_rev.
Defined.

(** ** Examples *)

Example pointer_demo :
  pointer_from_path [TStr "a"; TInt 0; TStr "b"] = "$/a/0/b".
Proof. vm_compute. reflexivity. Qed.

Example suffix_demo :
  map path_suffix [["a"; "r.JSON"]; ["a"; ".json"]; ["x.tar.gz"]; ["a."]; ["b"]]
  = [".JSON"; ""; ".gz"; ""; ""].
Proof. vm_compute. reflexivity. Qed.

Example find_demo :
  find_files Demo.tree [["repo"; "rules"; "core"]; ["repo"; "rules"; "extensions"]]
  = [["repo"; "rules"; "core"; "broken.yml"]; ["repo"; "rules"; "core"; "nulls.YAML"]].
Proof. vm_compute. reflexivity. Qed.

Example run_demo :
  let r := Demo.run Demo.tree Demo.lenient in
  errors r
  = ["/repo/rules/core/broken.yml: unable to parse document: while parsing a flow node";
     "Missing schema file: /repo/schemas/semantic-types-schema.json";
     "/repo/integrations/great_expectations/suites/core_suite.json[expectations/0]: missing expectation_type field."]
  /\ warnings r
     = ["Referenced rule ID not found in rules/core or rules/extensions: R9"]
  /\ exit_code r = 1%Z.
Proof. vm_compute. auto. Qed.

Example strict_run_demo :
  let r := Demo.run Demo.small Demo.strict in
  errors r = []
  /\ warnings r
     = ["Referenced rule ID not found in rules/core or rules/extensions: R1";
        "Referenced rule ID not found in rules/core or rules/extensions: R9"]
  /\ exit_code r = 1%Z.
Proof. vm_compute. auto. Qed.

Example reordered_run_demo :
  Demo.run Demo.tree' Demo.lenient = Demo.run Demo.tree Demo.lenient.
Proof. by vm_compute. Qed.

(** * Further properties of the validator *)

(** ** What the extractors collect *)

Lemma add_rule_id_elem (acc : gset string) item id :
  id ∈ add_rule_id acc item
  <-> id ∈ acc
      \/ exists fields,
           item = VDict fields
           /\ dict_get fields (TStr "rule_id") = Some (VStr id).
Proof.
  destruct item as [| | | | | |fields|]; simpl;
    try (split; [by left|]; intros [?|(? & ? & _)]; done).
  destruct (dict_get fields (TStr "rule_id")) as [[| | | |s| | |]|] eqn:Hget;
    try (split; [by left|]; intros [?|(? & [= <-] & ?)]; [done|congruence]).
  rewrite elem_of_union, elem_of_singleton. split.
  - intros [?|Hs]; [by left|]. subst s. right. by exists fields.
  - intros [?|(? & [= <-] & ?)]; [by left|]. right. congruence.
Qed.

Lemma add_rule_id_fold items : forall (acc : gset string) id,
  id ∈ fold_left add_rule_id items acc
  <-> id ∈ acc
      \/ exists fields,
           VDict fields ∈ items
           /\ dict_get fields (TStr "rule_id") = Some (VStr id).
Proof.
  induction items as [|item items IH]; intros acc id; simpl.
  - split; [by left|]. intros [?|(? & ?%elem_of_nil & _)]; done.
  - rewrite IH, add_rule_id_elem. split.
    + intros [[?|(fields & -> & ?)]|(fields & ? & ?)].
      * by left.
      * right. exists fields. split; [left|done].
      * right. exists fields. split; [by right|done].
    + intros [?|(fields & Hin & ?)]; [by left; left|].
      apply elem_of_cons in Hin as [<-|?].
      * left. right. by exists fields.
      * right. by exists fields.
Qed.

Lemma add_default_rule_fold items : forall (acc : gset string) id,
  id ∈ fold_left add_default_rule items acc <-> id ∈ acc \/ VStr id ∈ items.
Proof.
  induction items as [|item items IH]; intros acc id; simpl.
  - split; [by left|]. intros [?|?%elem_of_nil]; done.
  - rewrite IH, elem_of_cons.
    assert (id ∈ add_default_rule acc item <-> id ∈ acc \/ VStr id = item) as ->.
    { destruct item; simpl; try (split; [by left|]; intros [?|?]; done).
      rewrite elem_of_union, elem_of_singleton. split.
      - intros [? | ->]; [by left|by right].
      - intros [?|[= ->]]; [by left|by right]. }
    tauto.
Qed.

(** X1: the known identifiers of a rule document are exactly the string
    values of the [rule_id] field of the document itself when it is an
    object, and of its elements that are objects when it is a list. *)
Theorem X1_extract_rule_ids (payload : value) (id : string) :
  id ∈ extract_rule_ids payload
  <-> (exists fields,
         payload = VDict fields
         /\ dict_get fields (TStr "rule_id") = Some (VStr id))
      \/ (exists items fields,
            payload = VList items
            /\ VDict fields ∈ items
            /\ dict_get fields (TStr "rule_id") = Some (VStr id)).
Proof.
  destruct payload as [| | | | |items|fields|];
    cbv beta iota delta [extract_rule_ids];
    try (split; [by intros ?%elem_of_empty|];
         intros [(? & ? & _)|(? & ? & ? & _)]; done).
  - rewrite add_rule_id_fold. split.
    + intros [?%elem_of_empty|(fields & ? & ?)]; [done|].
      right. by exists items, fields.
    + intros [(? & ? & _)|(? & fields & [= <-] & ? & ?)]; [done|].
      right. by exists fields.
  - rewrite (add_rule_id_elem ∅ (VDict fields)). split.
    + intros [?%elem_of_empty|(? & [= <-] & ?)]; [done|].
      left. by exists fields.
    + intros [(? & [= <-] & ?)|(? & ? & ? & _)]; [|done].
      right. by exists fields.
Qed.

(** X2: the identifiers an object document references are exactly the string
    values of [rule_id] in the objects of its [rules] list, together with the
    strings of its [default_rules] list. *)
Theorem X2_extract_referenced_rule_ids (fields : list (token * value)) (id : string) :
  id ∈ extract_referenced_rule_ids (VDict fields)
  <-> (exists rules item,
         dict_get fields (TStr "rules") = Some (VList rules)
         /\ VDict item ∈ rules
         /\ dict_get item (TStr "rule_id") = Some (VStr id))
      \/ (exists default_rules,
            dict_get fields (TStr "default_rules") = Some (VList default_rules)
            /\ VStr id ∈ default_rules).
Proof.
  simpl.
  assert (id ∈ match dict_get fields (TStr "rules") with
               | Some (VList rules) => fold_left add_rule_id rules (∅ : gset string)
               | _ => ∅
               end
          <-> exists rules item,
                dict_get fields (TStr "rules") = Some (VList rules)
                /\ VDict item ∈ rules
                /\ dict_get item (TStr "rule_id") = Some (VStr id)) as Hrules.
  { destruct (dict_get fields (TStr "rules")) as [[| | | | |rules| |]|];
      try (split; [by intros ?%elem_of_empty|]; intros (? & ? & ? & _); done).
    rewrite add_rule_id_fold. split.
    - intros [?%elem_of_empty|(item & ? & ?)]; [done|]. by exists rules, item.
    - intros (? & item & [= <-] & ? & ?). right. by exists item. }
  destruct (dict_get fields (TStr "default_rules"))
    as [[| | | | |default_rules| |]|];
    try (rewrite Hrules; split; [by left|]; intros [?|(? & ? & _)]; done).
  rewrite add_default_rule_fold, Hrules. split.
  - intros [?|?]; [by left|]. right. by exists default_rules.
  - intros [?|(? & [= <-] & ?)]; [by left|by right].
Qed.

(** ** What the sort of the violations achieves *)

Lemma token_lt_asym x y : token_lt x y = Ret true -> token_lt y x = Ret false.
Proof.
  destruct x as [s|m], y as [t|n]; simpl; try done; intros [= H]; f_equal.
  - unfold String.ltb in *. rewrite String.compare_antisym.
    by destruct (String.compare s t).
  - lia.
Qed.

Lemma list_lt_irrefl a : list_lt a a = Ret false.
Proof. induction a as [|x a IH]; simpl; [done|]. by rewrite decide_True. Qed.

Lemma list_lt_asym a : forall b, list_lt a b = Ret true -> list_lt b a = Ret false.
Proof.
  induction a as [|x a IH]; intros [|y b]; simpl; try done.
  case_decide as Hxy.
  - subst y. rewrite decide_True by done. apply IH.
  - rewrite decide_False by done. apply token_lt_asym.
Qed.

Section SortedByPath.
(** [x] may stand before [y]: the key of [y] is not smaller. *)
Local Abbreviation in_order :=
  (fun x y : schema_error => list_lt (absolute_path y) (absolute_path x) = Ret false).

Lemma insert_by_path_sorted e l : forall l',
  insert_by_path e l = Ret l' ->
  Sorted in_order l ->
  Sorted in_order l'
  /\ forall y, in_order y e -> HdRel in_order y l -> HdRel in_order y l'.
Proof.
  induction l as [|z l IH]; simpl; intros l' Hins Hl.
  - injection Hins as <-. split; [by repeat constructor|].
    intros y Hy _. by constructor.
  - destruct (list_lt (absolute_path z) (absolute_path e)) as [[]|] eqn:Hze;
      simpl in Hins; [| |done].
    + destruct (insert_by_path e l) as [l0|] eqn:Hl0; simpl in Hins; [|done].
      injection Hins as <-. apply Sorted_inv in Hl as [Hl Hz].
      destruct (IH l0 eq_refl Hl) as [Hs Hhd]. split.
      * constructor; [done|]. apply Hhd; [|done]. by apply list_lt_asym.
      * intros y _ Hy. constructor. by apply HdRel_inv in Hy.
    + injection Hins as <-. split.
      * constructor; [done|]. by constructor.
      * intros y Hy _. by constructor.
Qed.

Lemma sorted_by_path_sorted errs : forall l,
  sorted_by_path errs = Ret l -> Sorted in_order l.
Proof.
  induction errs as [|e errs IH]; simpl; intros l Hl.
  - injection Hl as <-. constructor.
  - destruct (sorted_by_path errs) as [l0|]; simpl in Hl; [|done].
    by apply (insert_by_path_sorted e l0 l Hl), IH.
Qed.

Lemma sorted_by_path_perm errs : forall l, sorted_by_path errs = Ret l -> l ≡ₚ errs.
Proof.
  induction errs as [|e errs IH]; simpl; intros l Hl.
  - by injection Hl as <-.
  - destruct (sorted_by_path errs) as [l0|]; simpl in Hl; [|done].
    rewrite (insert_by_path_perm _ _ _ Hl). by rewrite (IH l0).
Qed.

Lemma insert_by_path_stable k e l : forall l',
  insert_by_path e l = Ret l' ->
  filter (fun x => absolute_path x = k) l'
  = filter (fun x => absolute_path x = k) (e :: l).
Proof.
  induction l as [|z l IH]; simpl; intros l' Hins.
  - by injection Hins as <-.
  - destruct (list_lt (absolute_path z) (absolute_path e)) as [[]|] eqn:Hze;
      simpl in Hins; [| |done].
    + destruct (insert_by_path e l) as [l0|] eqn:Hl0; simpl in Hins; [|done].
      injection Hins as <-.
      rewrite (filter_cons _ z l0), (IH l0 eq_refl), !filter_cons.
      repeat case_decide; try done.
      exfalso. assert (absolute_path z = absolute_path e) as Heq by congruence.
      rewrite Heq, list_lt_irrefl in Hze. done.
    + by injection Hins as <-.
Qed.

Lemma sorted_by_path_stable k errs : forall l,
  sorted_by_path errs = Ret l ->
  filter (fun x => absolute_path x = k) l
  = filter (fun x => absolute_path x = k) errs.
Proof.
  induction errs as [|e errs IH]; simpl; intros l Hl.
  - by injection Hl as <-.
  - destruct (sorted_by_path errs) as [l0|]; simpl in Hl; [|done].
    rewrite (insert_by_path_stable k e l0 l Hl), !filter_cons.
    by rewrite (IH l0).
Qed.

(** X3: the errors of an object document are its violations, each
    formatted once, in the order of their paths: no violation stands before
    one with a smaller path, and violations with the same path keep the order
    in which the validator reported them. *)
Theorem X3_object_errors_in_path_order (v : validator)
    (fields : list (token * value)) (file_path : path) (errs : list string) :
  validate_document v (VDict fields) file_path = Ret errs ->
  exists violations l,
    v (VDict fields) = Ret violations
    /\ errs = map (format_error file_path) l
    /\ l ≡ₚ violations
    /\ Sorted (fun x y => list_lt (absolute_path y) (absolute_path x) = Ret false) l
    /\ forall k,
         filter (fun x => absolute_path x = k) l
         = filter (fun x => absolute_path x = k) violations.
Proof.
  simpl. destruct (v (VDict fields)) as [violations|]; simpl; [|done].
  destruct (sorted_by_path violations) as [l|] eqn:Hl; simpl; [|done].
  intros [= <-]. exists violations, l. split_and!.
  - done.
  - done.
  - exact (sorted_by_path_perm _ l Hl).
  - exact (sorted_by_path_sorted _ l Hl).
  - intros k. by apply sorted_by_path_stable.
Qed.
End SortedByPath.

Lemma X3_object_errors_in_path_order_witness :
  exists violations l,
    Sample.four_violations (VDict []) = Ret violations
    /\ ["/repo/rules/core/nulls.json: $ root";
        "/repo/rules/core/nulls.json: $/rules/0/rule_id first";
        "/repo/rules/core/nulls.json: $/rules/1 second";
        "/repo/rules/core/nulls.json: $/rules/1 third"]
       = map (format_error ["repo"; "rules"; "core"; "nulls.json"]) l
    /\ l ≡ₚ violations
    /\ Sorted (fun x y => list_lt (absolute_path y) (absolute_path x) = Ret false) l
    /\ forall k,
         filter (fun x => absolute_path x = k) l
         = filter (fun x => absolute_path x = k) violations.
Proof.
  apply (X3_object_errors_in_path_order Sample.four_violations []
           ["repo"; "rules"; "core"; "nulls.json"]).
  reflexivity.
Defined.

(** ** The errors of a document *)

Lemma validate_items_structural (v : validator) file_path items :
  (forall item, item ∈ items -> is_dict item = true -> v item = Ret []) ->
  forall index errors,
    validate_items v file_path index items errors
    = Ret (errors
             ++ concat (imap (fun i item =>
                                if is_dict item then []
                                else [path_str file_path +:+ "[" +:+ pretty (index + i)
                                        +:+ "]: expected object, got "
                                        +:+ type_name item +:+ "."])
                             items)).
Proof.
  induction items as [|item items IH]; intros Hvalid index errors; simpl.
  - by rewrite app_nil_r.
  - assert (forall item', item' ∈ items -> is_dict item' = true -> v item' = Ret [])
      as Hrest by (intros item' ?; apply Hvalid; by right).
    rewrite Nat.add_0_r.
    destruct (is_dict item) eqn:Hdict.
    + rewrite (Hvalid item) by (done || left). simpl.
      rewrite (IH Hrest), app_nil_r. f_equal. f_equal. f_equal.
      apply imap_ext. intros i x _. simpl. by rewrite Nat.add_succ_r.
    + rewrite (IH Hrest), <- app_assoc. f_equal. f_equal. simpl. f_equal. f_equal.
      apply imap_ext. intros i x _. simpl. by rewrite Nat.add_succ_r.
Qed.

(** X4: in a list document whose objects all satisfy the schema, each element
    that is not an object gives exactly one structural error, which names the
    position of the element in the list and its type; the errors come in the
    order of the elements and there are no others. *)
Theorem X4_list_structural_errors (v : validator) (items : list value)
    (file_path : path) :
  (forall item, item ∈ items -> is_dict item = true -> v item = Ret []) ->
  validate_document v (VList items) file_path
  = Ret (concat (imap (fun i item =>
                         if is_dict item then []
                         else [path_str file_path +:+ "[" +:+ pretty i
                                 +:+ "]: expected object, got "
                                 +:+ type_name item +:+ "."])
                      items)).
Proof.
  intros Hvalid. simpl. by rewrite validate_items_structural.
Qed.

Lemma X4_list_structural_errors_witness :
  validate_document (fun _ => Ret []) (VList [VDict []; VStr "R1"; VDict []; VNone])
    ["repo"; "rules"; "core"; "nulls.yaml"]
  = Ret ["/repo/rules/core/nulls.yaml[1]: expected object, got str.";
         "/repo/rules/core/nulls.yaml[3]: expected object, got NoneType."].
Proof.
  apply (X4_list_structural_errors (fun _ => Ret [])
           [VDict []; VStr "R1"; VDict []; VNone]
           ["repo"; "rules"; "core"; "nulls.yaml"]).
  reflexivity.
Defined.

Lemma validate_items_located (v : validator) file_path items :
  forall index errors out,
    Forall (starts_with (path_str file_path)) errors ->
    validate_items v file_path index items errors = Ret out ->
    Forall (starts_with (path_str file_path)) out.
Proof.
  induction items as [|item items IH]; intros index errors out Herrs; simpl.
  - by intros [= <-].
  - destruct (is_dict item).
    + destruct (v item) as [violations|]; simpl; [|done].
      destruct (sorted_by_path violations) as [l|]; simpl; [|done].
      apply IH. apply Forall_app. split; [done|].
      apply Forall_forall. intros e (err & -> & _)%list_elem_of_fmap.
      by eexists.
    + apply IH. apply Forall_app. split; [done|].
      repeat constructor. by eexists.
Qed.

(** X5: every error the adapter returns starts with the path of the file
    it was given, whatever the shape of the document. *)
Theorem X5_errors_name_the_file (v : validator) (payload : value)
    (file_path : path) (errs : list string) :
  validate_document v payload file_path = Ret errs ->
  forall e, e ∈ errs -> exists rest, e = path_str file_path +:+ rest.
Proof.
  intros Hrun. apply Forall_forall. change (Forall (starts_with (path_str file_path)) errs).
  destruct payload as [| | | | |items|fields|]; simpl in Hrun;
    try (injection Hrun as <-; repeat constructor; by eexists).
  - by apply (validate_items_located v file_path items 0 [] errs).
  - destruct (v (VDict fields)) as [violations|]; simpl in Hrun; [|done].
    destruct (sorted_by_path violations) as [l|]; simpl in Hrun; [|done].
    injection Hrun as <-. apply Forall_forall.
    intros e (err & -> & _)%list_elem_of_fmap. by eexists.
Qed.

Lemma X5_errors_name_the_file_witness :
  exists rest,
    "/repo/rules/datasets/sales.json: $/b 'y' should not be valid under {'type': 'string'}"
    = path_str ["repo"; "rules"; "datasets"; "sales.json"] +:+ rest.
Proof.
  apply (X5_errors_name_the_file no_string_properties
           (VDict [(TStr "b", VStr "y")]) ["repo"; "rules"; "datasets"; "sales.json"]
           ["/repo/rules/datasets/sales.json: $/b 'y' should not be valid under {'type': 'string'}"]).
  - reflexivity.
  - left.
Defined.

(** ** The suite-shape checker, in general *)

Lemma check_expectations_length p items : forall index errors,
  length (check_expectations p index items errors)
  = length errors + length (filter (fun item => expectation_ok item = false) items).
Proof.
  induction items as [|item items IH]; intros index errors; simpl; [lia|].
  rewrite filter_cons.
  destruct item as [| | | | | |fields|]; simpl;
    try (rewrite IH, length_app; simpl; lia).
  destruct (dict_mem fields (TStr "expectation_type")); simpl.
  - by rewrite IH.
  - rewrite IH, length_app. simpl. lia.
Qed.

Lemma filter_none {A} (P : A -> Prop) `{forall x, Decision (P x)} (l : list A) :
  Forall (fun x => ~ P x) l -> filter P l = [].
Proof.
  induction 1 as [|x l Hx _ IH]; [done|].
  rewrite filter_cons. by case_decide.
Qed.

Section SuiteShape.
Context (json_loads : string -> string + value) (fs : file_system) (p : path).
Context (raw : string) (fields : list (token * value)).
Context (Hfile : fs_lookup fs p = Some (File raw)).
Context (Hjson : json_loads raw = inr (VDict fields)).

Lemma suite_shape_length :
  length (validate_ge_suite_shape json_loads fs p)
  = (if suite_name_ok (dict_get fields (TStr "expectation_suite_name")) then 0 else 1)
    + match dict_get fields (TStr "expectations") with
      | Some (VList items) =>
          length (filter (fun item => expectation_ok item = false) items)
      | _ => 1
      end.
Proof.
  unfold validate_ge_suite_shape, path_exists, read_json, read_text.
  rewrite Hfile, bool_decide_eq_true_2 by eauto. simpl. rewrite Hjson.
  set (errors := match dict_get fields (TStr "expectation_suite_name") with
                 | Some (VStr s) => if is_blank s then _ else _
                 | _ => _
                 end).
  assert (length errors
          = if suite_name_ok (dict_get fields (TStr "expectation_suite_name"))
            then 0 else 1) as <-.
  { unfold errors, suite_name_ok.
    destruct (dict_get fields (TStr "expectation_suite_name"))
      as [[| | | |s| | |]|]; try done.
    by destruct (is_blank s). }
  destruct (dict_get fields (TStr "expectations")) as [[| | | | |items| |]|];
    rewrite ?length_app; try done.
  apply check_expectations_length.
Qed.
End SuiteShape.

(** X6: on a suite file that parses to an object, the checker collects all
    violations: one error when the suite name is not a non-blank string, plus
    one error per element of [expectations] that is not an object with an
    [expectation_type] field, or a single error when [expectations] is not a
    list. *)
Theorem X6_suite_shape_collects_all (json_loads : string -> string + value)
    (fs : file_system) (p : path) (raw : string) (fields : list (token * value)) :
  fs_lookup fs p = Some (File raw) ->
  json_loads raw = inr (VDict fields) ->
  length (validate_ge_suite_shape json_loads fs p)
  = (if suite_name_ok (dict_get fields (TStr "expectation_suite_name")) then 0 else 1)
    + match dict_get fields (TStr "expectations") with
      | Some (VList items) =>
          length (filter (fun item => expectation_ok item = false) items)
      | _ => 1
      end.
Proof.
  intros Hfile Hjson.
  rewrite (suite_shape_length json_loads fs p raw fields Hfile Hjson).
  reflexivity.
Qed.

(** X7: a suite file that is present is accepted without error exactly when
    it parses to an object whose suite name is a non-blank string and whose
    [expectations] is a list of objects that all have an [expectation_type]
    field. *)
Theorem X7_suite_shape_accepts (json_loads : string -> string + value)
    (fs : file_system) (p : path) (e : entry) :
  fs_lookup fs p = Some e ->
  validate_ge_suite_shape json_loads fs p = []
  <-> exists raw fields items,
        e = File raw
        /\ json_loads raw = inr (VDict fields)
        /\ suite_name_ok (dict_get fields (TStr "expectation_suite_name")) = true
        /\ dict_get fields (TStr "expectations") = Some (VList items)
        /\ Forall (fun item => expectation_ok item = true) items.
Proof.
  intros He. split.
  - intros Hnil.
    assert (exists raw fields, e = File raw /\ json_loads raw = inr (VDict fields))
      as (raw & fields & -> & Hjson).
    { revert Hnil. unfold validate_ge_suite_shape, path_exists, read_json, read_text.
      rewrite He, bool_decide_eq_true_2 by eauto. simpl.
      destruct e as [raw|]; [|done].
      destruct (json_loads raw) as [exc|[| | | | | |fields|]] eqn:Hjson; try done.
      intros _. by exists raw, fields. }
    pose proof (suite_shape_length json_loads fs p raw fields He Hjson) as Hlen.
    rewrite Hnil in Hlen. simpl in Hlen.
    destruct (suite_name_ok _) eqn:Hname; [|lia].
    destruct (dict_get fields (TStr "expectations")) as [[| | | | |items| |]|]
      eqn:Hexp; try lia.
    exists raw, fields, items. split_and!; try done.
    apply Forall_forall. intros item Hitem.
    destruct (expectation_ok item) eqn:Hok; [done|].
    assert (item ∈ filter (fun item => expectation_ok item = false) items) as Hin
      by (by apply list_elem_of_filter).
    destruct (filter _ items); [by apply elem_of_nil in Hin|simpl in Hlen; lia].
  - intros (raw & fields & items & -> & Hjson & Hname & Hexp & Hitems).
    apply length_zero_iff_nil.
    rewrite (suite_shape_length json_loads fs p raw fields He Hjson), Hname, Hexp.
    simpl. apply length_zero_iff_nil, filter_none.
    apply Forall_impl with (1 := Hitems). intros item ->. done.
Qed.

Lemma X6_suite_shape_collects_all_witness :
  length (validate_ge_suite_shape Demo.json Demo.tree (ge_suite_path Demo.root)) = 1.
Proof.
  apply (X6_suite_shape_collects_all Demo.json Demo.tree (ge_suite_path Demo.root)
           "suite"
           [(TStr "expectation_suite_name", VStr "s");
            (TStr "expectations", VList [VDict []])]); reflexivity.
Defined.

Lemma X7_suite_shape_accepts_witness :
  validate_ge_suite_shape Demo.json Demo.tree (ge_suite_path Demo.root) = []
  <-> exists raw fields items,
        File "suite" = File raw
        /\ Demo.json raw = inr (VDict fields)
        /\ suite_name_ok (dict_get fields (TStr "expectation_suite_name")) = true
        /\ dict_get fields (TStr "expectations") = Some (VList items)
        /\ Forall (fun item => expectation_ok item = true) items.
Proof.
  apply (X7_suite_shape_accepts Demo.json Demo.tree (ge_suite_path Demo.root)
           (File "suite")).
  reflexivity.
Defined.

(** ** The accumulators of a run *)

Lemma grows_refl st : grows st st.
Proof. by split_and!. Qed.

Lemma grows_trans st1 st2 st3 : grows st1 st2 -> grows st2 st3 -> grows st1 st3.
Proof.
  intros (? & ? & ? & ?) (? & ? & ? & ?). split_and!; by etrans.
Qed.

Lemma grows_add_errors st errs : grows st (add_errors st errs).
Proof. split_and!; simpl; try done. by apply prefix_app_r. Qed.

Lemma grows_add_known st ids : grows st (add_known st ids).
Proof. split_and!; simpl; try done. apply union_subseteq_l. Qed.

Lemma grows_add_referenced st ids : grows st (add_referenced st ids).
Proof. split_and!; simpl; try done. apply union_subseteq_l. Qed.

Lemma grows_print st line : grows st (print st line).
Proof. split_and!; simpl; try done. by apply prefix_app_r. Qed.

Section Accumulators.
Context (json_loads : string -> string + value).
Context (yaml_safe_load : string -> string + value).
Context (Draft202012Validator : value -> result validator).
Context (fs : file_system) (args : arguments).

Local Abbreviation file_step :=
  (process_file json_loads yaml_safe_load fs args).
Local Abbreviation files_loop :=
  (process_files json_loads yaml_safe_load fs args).
Local Abbreviation target_step :=
  (process_target json_loads yaml_safe_load Draft202012Validator fs args).
Local Abbreviation targets_loop :=
  (process_targets json_loads yaml_safe_load Draft202012Validator fs args).

(** What one file does to the state, when the step returns. *)
Lemma process_file_inv target v st f st' :
  file_step target v st f = Ret st' ->
  exists st0,
    (st0 = st \/ exists line, st0 = print st line)
    /\ match load_payload json_loads yaml_safe_load fs f with
       | inl exc =>
           st' = add_errors st0
                   [path_str f +:+ ": unable to parse document: " +:+ exc]
       | inr payload =>
           exists errs,
             validate_document v payload f = Ret errs
             /\ st' = (if decide (name target = "rule definitions")
                       then add_known (add_errors st0 errs) (extract_rule_ids payload)
                       else add_referenced (add_errors st0 errs)
                              (extract_referenced_rule_ids payload))
       end.
Proof.
  unfold process_file.
  set (m := if verbose args then _ else _).
  assert (m = Ret st \/ (exists line, m = Ret (print st line))
          \/ exists e, m = Raise e) as Hm.
  { unfold m. destruct (verbose args); [|by left].
    destruct (relative_to f (project_root args)); simpl; eauto. }
  destruct Hm as [-> | [[line ->] | [e ->]]]; simpl; [| |done].
  - intros Hrun. exists st. split; [by left|].
    destruct (load_payload _ _ _ f) as [exc|payload]; [by injection Hrun|].
    destruct (validate_document v payload f) as [errs|]; simpl in Hrun; [|done].
    exists errs. split; [done|]. by case_decide; injection Hrun.
  - intros Hrun. exists (print st line). split; [right; eauto|].
    destruct (load_payload _ _ _ f) as [exc|payload]; [by injection Hrun|].
    destruct (validate_document v payload f) as [errs|]; simpl in Hrun; [|done].
    exists errs. split; [done|]. by case_decide; injection Hrun.
Qed.

Lemma process_file_grows target v st f st' :
  file_step target v st f = Ret st' -> grows st st'.
Proof.
  intros (st0 & Hst0 & Hload)%process_file_inv.
  assert (grows st st0) as H0.
  { destruct Hst0 as [->|[line ->]]; [apply grows_refl|apply grows_print]. }
  apply (grows_trans _ _ _ H0).
  destruct (load_payload _ _ _ f) as [exc|payload].
  - subst st'. apply grows_add_errors.
  - destruct Hload as (errs & _ & ->).
    case_decide; (eapply grows_trans; [apply grows_add_errors|]);
      [apply grows_add_known|apply grows_add_referenced].
Qed.

Lemma process_files_grows target v files : forall st st',
  files_loop target v st files = Ret st' -> grows st st'.
Proof.
  induction files as [|f files IH]; simpl; intros st st' Hrun.
  - injection Hrun as <-. apply grows_refl.
  - destruct (file_step target v st f) as [st1|] eqn:Hf; simpl in Hrun; [|done].
    eapply grows_trans; [by eapply process_file_grows|by apply IH].
Qed.

Lemma process_target_grows st target st' :
  target_step st target = Ret st' -> grows st st'.
Proof.
  unfold process_target.
  destruct (negb _); [intros [= <-]; apply grows_add_errors|].
  destruct (read_json _ _ _) as [exc|schema]; [intros [= <-]; apply grows_add_errors|].
  destruct (Draft202012Validator schema) as [v|]; simpl; [|done].
  intros Hrun%process_files_grows.
  eapply grows_trans; [|exact Hrun].
  destruct (verbose args); [apply grows_print|apply grows_refl].
Qed.

(** X8: the accumulators of a run only grow: whatever the targets, the
    errors and the printed lines recorded so far stay in front, unchanged, and
    no known or referenced identifier is ever removed. *)
Theorem X8_accumulators_grow (targets : list ValidationTarget) (st st' : run_state) :
  targets_loop st targets = Ret st' ->
  all_errors st `prefix_of` all_errors st'
  /\ known_rule_ids st ⊆ known_rule_ids st'
  /\ referenced_rule_ids st ⊆ referenced_rule_ids st'
  /\ stdout st `prefix_of` stdout st'.
Proof.
  change (targets_loop st targets = Ret st' -> grows st st').
  revert st st'. induction targets as [|t targets IH]; simpl; intros st st' Hrun.
  - injection Hrun as <-. apply grows_refl.
  - destruct (target_step st t) as [st1|] eqn:Ht; simpl in Hrun; [|done].
    eapply grows_trans; [by eapply process_target_grows|by apply IH].
Qed.

Lemma process_files_sets target v files : forall st st',
  files_loop target v st files = Ret st' ->
  (name target = "rule definitions" ->
   referenced_rule_ids st' = referenced_rule_ids st)
  /\ (name target <> "rule definitions" ->
      known_rule_ids st' = known_rule_ids st).
Proof.
  induction files as [|f files IH]; simpl; intros st st' Hrun.
  - by injection Hrun as <-.
  - destruct (file_step target v st f) as [st1|] eqn:Hf; simpl in Hrun; [|done].
    destruct (IH st1 st' Hrun) as [IHr IHk].
    apply process_file_inv in Hf as (st0 & Hst0 & Hload).
    assert (referenced_rule_ids st0 = referenced_rule_ids st
            /\ known_rule_ids st0 = known_rule_ids st) as [Hr0 Hk0].
    { by destruct Hst0 as [->|[line ->]]. }
    destruct (load_payload _ _ _ f) as [exc|payload].
    + subst st1. simpl in *. split; intros Hn; [by rewrite IHr|by rewrite IHk].
    + destruct Hload as (errs & _ & ->).
      split; intros Hn.
      * rewrite (IHr Hn). by rewrite decide_True.
      * rewrite (IHk Hn). by rewrite decide_False.
Qed.

(** X9: the rule target feeds the known identifiers only, and every other
    target feeds the referenced identifiers only. *)
Theorem X9_targets_feed_one_set (target : ValidationTarget) (st st' : run_state) :
  target_step st target = Ret st' ->
  (name target = "rule definitions" ->
   referenced_rule_ids st' = referenced_rule_ids st)
  /\ (name target <> "rule definitions" ->
      known_rule_ids st' = known_rule_ids st).
Proof.
  unfold process_target.
  destruct (negb _); [by intros [= <-]|].
  destruct (read_json _ _ _) as [exc|schema]; [by intros [= <-]|].
  destruct (Draft202012Validator schema) as [v|]; simpl; [|done].
  intros [Hr Hk]%process_files_sets.
  split; intros Hn; [rewrite (Hr Hn)|rewrite (Hk Hn)]; by destruct (verbose args).
Qed.

Lemma process_files_app target v files1 files2 : forall st,
  files_loop target v st (files1 ++ files2)
  = (st1 ← files_loop target v st files1; files_loop target v st1 files2).
Proof.
  induction files1 as [|f files1 IH]; intros st; simpl; [done|].
  destruct (file_step target v st f); simpl; auto.
Qed.

(** X10: a document that cannot be read or parsed costs exactly one error,
    which names the file and carries the text of the exception; it adds no
    identifier, and the files after it are processed from there. *)
Theorem X10_unparsable_document (target : ValidationTarget) (v : validator)
    (before after : list path) (f : path) (exc : string) (st st' : run_state) :
  load_payload json_loads yaml_safe_load fs f = inl exc ->
  files_loop target v st (before ++ f :: after) = Ret st' ->
  exists st1 st2,
    files_loop target v st before = Ret st1
    /\ file_step target v st1 f = Ret st2
    /\ all_errors st2
       = all_errors st1 ++ [path_str f +:+ ": unable to parse document: " +:+ exc]
    /\ known_rule_ids st2 = known_rule_ids st1
    /\ referenced_rule_ids st2 = referenced_rule_ids st1
    /\ files_loop target v st2 after = Ret st'.
Proof.
  intros Hload. rewrite process_files_app.
  destruct (files_loop target v st before) as [st1|]; simpl; [|done].
  destruct (file_step target v st1 f) as [st2|] eqn:Hf; simpl; [|done].
  intros Hafter. exists st1, st2. split_and!; try done.
  all: apply process_file_inv in Hf as (st0 & Hst0 & Hst2);
    rewrite Hload in Hst2; subst st2;
    by destruct Hst0 as [->|[line ->]].
Qed.
End Accumulators.

(** ** The flags and the findings *)

Section Flags.
Context (json_loads : string -> string + value).
Context (yaml_safe_load : string -> string + value).
Context (Draft202012Validator : value -> result validator).
Context (fs : file_system) (args1 args2 : arguments).
Context (Hroot : project_root args1 = project_root args2).

Lemma same_findings_print_l st1 st2 line :
  same_findings st1 st2 -> same_findings (print st1 line) st2.
Proof. done. Qed.

Lemma same_findings_print_r st1 st2 line :
  same_findings st1 st2 -> same_findings st1 (print st2 line).
Proof. done. Qed.





End Flags.

(** ** What the report shows *)

Lemma report_output args st suite_errors :
  exists blocks,
    output (report args st suite_errors)
    = stdout st
        ++ ["Data Quality asset validation summary";
            "- Known rule IDs: " +:+ pretty (size (known_rule_ids st));
            "- Referenced rule IDs: " +:+ pretty (size (referenced_rule_ids st));
            "- Errors: " +:+ pretty (length (all_errors st ++ suite_errors));
            "- Warnings: "
              +:+ pretty (length (reference_warnings (known_rule_ids st)
                                    (referenced_rule_ids st)))]
        ++ blocks
    /\ (forall w, w ∈ reference_warnings (known_rule_ids st) (referenced_rule_ids st) ->
                  "- " +:+ w ∈ blocks)
    /\ (forall e, e ∈ all_errors st ++ suite_errors -> "- " +:+ e ∈ blocks).
Proof.
  unfold report.
  set (ws := reference_warnings _ _). set (es := all_errors st ++ suite_errors).
  set (wblock := match ws with
                 | [] => []
                 | _ => [nl +:+ "Warnings:"] ++ map (fun w => "- " +:+ w) ws
                 end).
  assert (forall w, w ∈ ws -> "- " +:+ w ∈ wblock) as Hw.
  { intros w Hin. unfold wblock. destruct ws as [|w0 ws']; [by apply elem_of_nil in Hin|].
    right. apply list_elem_of_fmap. by exists w. }
  assert (forall summary,
            match ws with
            | [] => stdout st ++ summary
            | _ => (stdout st ++ summary) ++ [nl +:+ "Warnings:"]
                     ++ map (fun w => "- " +:+ w) ws
            end = stdout st ++ summary ++ wblock) as Hout.
  { intros summary. unfold wblock. destruct ws; [by rewrite app_nil_r|].
    by rewrite <- app_assoc. }
  destruct es as [|e es'] eqn:Hes.
  - destruct (strict_references args && _); simpl; rewrite Hout.
    + exists wblock. split_and!; [done|done|]. by intros e ?%elem_of_nil.
    + exists (wblock ++ [nl +:+ "Validation passed."]). split_and!.
      * by rewrite <- !app_assoc.
      * intros w ?. apply elem_of_app. left. by apply Hw.
      * by intros e ?%elem_of_nil.
  - simpl. rewrite Hout.
    exists (wblock ++ [nl +:+ "Errors:"] ++ map (fun e => "- " +:+ e) (e :: es')).
    split_and!.
    + by rewrite <- !app_assoc.
    + intros w ?. apply elem_of_app. left. by apply Hw.
    + intros e0 Hin. apply elem_of_app. right. right.
      apply list_elem_of_fmap. by exists e0.
Qed.

Section Shown.
Context (json_loads : string -> string + value).
Context (yaml_safe_load : string -> string + value).
Context (Draft202012Validator : value -> result validator).
Context (fs : file_system) (args : arguments).

Local Abbreviation run :=
  (main json_loads yaml_safe_load Draft202012Validator fs args).

(** X12: nothing is dropped from the report: a run that comes to its end
    prints the summary with the four counts, and prints every warning and
    every error of its final sequences, each behind a dash. *)
Theorem X12_everything_is_printed (r : outcome) :
  run = Ret r ->
  "Data Quality asset validation summary" ∈ output r
  /\ "- Known rule IDs: " +:+ pretty (size (known r)) ∈ output r
  /\ "- Referenced rule IDs: " +:+ pretty (size (referenced r)) ∈ output r
  /\ "- Errors: " +:+ pretty (length (errors r)) ∈ output r
  /\ "- Warnings: " +:+ pretty (length (warnings r)) ∈ output r
  /\ (forall w, w ∈ warnings r -> "- " +:+ w ∈ output r)
  /\ (forall e, e ∈ errors r -> "- " +:+ e ∈ output r).
Proof.
  intros (st & _ & ->)%main_report.
  set (suite := validate_ge_suite_shape _ _ _).
  destruct (report_fields args st suite) as (-> & -> & -> & ->).
  destruct (report_output args st suite) as (blocks & -> & Hw & He).
  split_and!.
  1-5: apply elem_of_app; right; apply elem_of_app; left;
       repeat (try (by left); right).
  - intros w ?. apply elem_of_app. right. apply elem_of_app. right. by apply Hw.
  - intros e ?. apply elem_of_app. right. apply elem_of_app. right. by apply He.
Qed.

(** X13: a run that comes to its end has no warning exactly when every
    referenced identifier is a known one. *)
Theorem X13_no_warning_iff_all_known (r : outcome) :
  run = Ret r ->
  warnings r = [] <-> referenced r ⊆ known r.
Proof.
  intros (st & _ & ->)%main_report.
  set (suite := validate_ge_suite_shape _ _ _).
  destruct (report_fields args st suite) as (_ & -> & -> & ->).
  unfold reference_warnings. split.
  - intros Hnil%fmap_nil_inv id Hid.
    destruct (decide (id ∈ known_rule_ids st)) as [|Hnot]; [done|].
    assert (id ∈ sorted_strs (elements (referenced_rule_ids st ∖ known_rule_ids st)))
      as Hin.
    { rewrite sorted_strs_perm, elem_of_elements. by apply elem_of_difference. }
    rewrite Hnil in Hin. by apply elem_of_nil in Hin.
  - intros Hsub.
    assert (referenced_rule_ids st ∖ known_rule_ids st = ∅) as ->.
    { apply set_eq. intros id. rewrite elem_of_difference.
      split; [intros [?%Hsub ?]; done|by intros ?%elem_of_empty]. }
    by rewrite elements_empty.
Qed.
End Shown.

(** ** Discovery finds a file once *)

Lemma rglob_nodup fs base : NoDup (map fst fs) -> NoDup (rglob fs base).
Proof.
  intros Hnd. unfold rglob.
  destruct (fs_lookup fs base) as [[|]|]; try constructor.
  by apply NoDup_filter.
Qed.

Lemma find_files_single_nodup fs base :
  NoDup (map fst fs) -> NoDup (find_files fs [base]).
Proof.
  intros Hnd. rewrite find_files_single.
  destruct (path_exists fs base); [|constructor].
  apply NoDup_filter. rewrite sorted_paths_perm. by apply rglob_nodup.
Qed.

Lemma below_component (root : list string) a x (f : list string) :
  below (root ++ [a; x]) f -> f !! S (length root) = Some x.
Proof.
  intros [[k ->] _]. rewrite <- app_assoc, lookup_app_r by lia.
  by replace (S (length root) - length root) with 1 by lia.
Qed.

Lemma find_files_apart fs root a x y f :
  x <> y ->
  f ∈ find_files fs [root ++ [a; x]] ->
  f ∉ find_files fs [root ++ [a; y]].
Proof.
  intros Hxy (_ & Hx & _)%find_files_single_elem
             (_ & Hy & _)%find_files_single_elem.
  apply below_component in Hx, Hy. congruence.
Qed.

(** X14: in a file tree where each path names one entry, no file is
    discovered twice in a run: the files of the three registered targets,
    taken together, are pairwise distinct. *)
Theorem X14_no_file_twice (fs : file_system) (root : path) :
  NoDup (map fst fs) ->
  NoDup (concat (map (fun target => find_files fs (search_paths target))
                     (targets_of root))).
Proof.
  intros Hnd. simpl. rewrite app_nil_r.
  unfold find_files at 1. rewrite find_files_from_concat. simpl.
  rewrite app_nil_r.
  repeat (apply NoDup_app; split_and!); try by apply find_files_single_nodup.
  all: intros f Hf Hin;
    repeat match goal with
           | H : _ ∈ _ ++ _ |- _ => apply elem_of_app in H as [H|H]
           end;
    refine (find_files_apart fs root _ _ _ f _ Hf Hin); done.
Qed.

Lemma X14_no_file_twice_witness :
  NoDup (concat (map (fun target => find_files Demo.tree (search_paths target))
                     (targets_of Demo.root))).
Proof.
  apply (X14_no_file_twice Demo.tree Demo.root).
  apply (bool_decide_unpack _). by vm_compute.
Defined.

(** ** The extension of a file name *)

Lemma from_last_dot_none t : from_last_dot t = None <-> no_dot t.
Proof.
  induction t as [|c t IH]; simpl.
  - split; [|done]. intros _ [|? a] b; done.
  - destruct (from_last_dot t) as [u|] eqn:Hu.
    + split; [done|]. intros Hno. exfalso.
      assert (~ no_dot t) as Hdot by (rewrite <- IH; done).
      apply Hdot. intros a b ->. by apply (Hno (String c a) b).
    + case_decide as Hc.
      * subst c. split; [done|]. intros Hno. by destruct (Hno "" t).
      * split; [|done]. intros _ [|c' a] b; simpl.
        -- intros [= ? _]. done.
        -- intros [= _ Ht]. revert Ht. by apply IH.
Qed.

Lemma from_last_dot_some s u :
  from_last_dot s = Some u
  <-> exists stem t, s = stem +:+ String "."%char t /\ u = String "."%char t /\ no_dot t.
Proof.
  revert u. induction s as [|c s IH]; intros u; simpl.
  - split; [done|]. intros ([|? ?] & t & ? & _); done.
  - destruct (from_last_dot s) as [u'|] eqn:Hu.
    + split.
      * intros [= <-]. destruct (proj1 (IH u') eq_refl) as (stem & t & -> & -> & Hno).
        by exists (String c stem), t.
      * intros (stem & t & Hs & -> & Hno). f_equal.
        destruct stem as [|c' stem]; simpl in Hs.
        -- injection Hs as -> ->. apply from_last_dot_none in Hno. congruence.
        -- injection Hs as -> ->.
           assert (Some u' = Some (String "."%char t)) as Heq
             by (apply IH; by exists stem, t).
           by injection Heq.
    + apply from_last_dot_none in Hu. case_decide as Hc.
      * subst c. split.
        -- intros [= <-]. by exists "", s.
        -- intros (stem & t & Hs & -> & Hno). f_equal.
           destruct stem as [|c' stem]; simpl in Hs; [by injection Hs|].
           injection Hs as _ Hs. destruct (Hu stem t Hs).
      * split; [done|]. intros (stem & t & Hs & -> & Hno).
        destruct stem as [|c' stem]; simpl in Hs.
        -- injection Hs as Hdot _. done.
        -- injection Hs as _ Hs. destruct (Hu stem t Hs).
Qed.

(** The extension of a path is either empty or a dot followed by at least one
    character, none of them a dot; and it is [.t] exactly when the last
    component of the path is a non-empty stem followed by [.t]. *)
Lemma path_suffix_shape (p : path) :
  (path_suffix p = "" \/ exists t, path_suffix p = String "."%char t)
  /\ forall t,
       path_suffix p = String "."%char t
       <-> t <> "" /\ no_dot t
           /\ exists name stem,
                last p = Some name /\ stem <> ""
                /\ name = stem +:+ String "."%char t.
Proof.
  unfold path_suffix.
  destruct (last p) as [[|c rest]|] eqn:Hlast.
  - split; [by left|]. intros t. split; [done|].
    intros (_ & _ & name & [|? ?] & [= <-] & ? & ?); done.
  - destruct (from_last_dot rest) as [u|] eqn:Hu.
    + apply from_last_dot_some in Hu as (stem & t0 & -> & -> & Hno).
      destruct t0 as [|c0 t0]; simpl.
      * split; [by left|]. intros t. split; [done|].
        intros (Ht & Hnot & name & stem' & [= <-] & Hstem & Hname).
        destruct stem' as [|c' stem']; [done|]. injection Hname as -> Hrest.
        assert (from_last_dot (stem +:+ ".") = Some ("." : string)) as H1.
        { apply from_last_dot_some. by exists stem, "". }
        assert (from_last_dot (stem +:+ ".") = Some (String "."%char t)) as H2.
        { rewrite Hrest. apply from_last_dot_some. by exists stem', t. }
        rewrite H1 in H2. injection H2 as <-. done.
      * split; [right; by eexists|]. intros t. split.
        -- intros [= <-]. split_and!; [done|done|].
           by exists (String c (stem +:+ String "."%char (String c0 t0))), (String c stem).
        -- intros (Ht & Hnot & name & stem' & [= <-] & Hstem & Hname).
           destruct stem' as [|c' stem']; [done|]. injection Hname as -> Hrest.
           assert (from_last_dot (stem +:+ String "."%char (String c0 t0))
                   = Some (String "."%char (String c0 t0))) as H1.
           { apply from_last_dot_some. by exists stem, (String c0 t0). }
           assert (from_last_dot (stem +:+ String "."%char (String c0 t0))
                   = Some (String "."%char t)) as H2.
           { rewrite Hrest. apply from_last_dot_some. by exists stem', t. }
           rewrite H1 in H2. by injection H2 as <-.
    + split; [by left|]. intros t. split; [done|].
      intros (Ht & Hnot & name & stem' & [= <-] & Hstem & Hname).
      destruct stem' as [|c' stem']; [done|]. injection Hname as -> Hrest.
      apply from_last_dot_none in Hu. by destruct (Hu stem' t).
  - split; [by left|]. intros t. split; [done|].
    intros (_ & _ & name & ? & ? & _); done.
Qed.

(** * Properties of the legacy analyser *)

Lemma string_prefix_spec a : forall s,
  String.prefix a s = true <-> exists b, s = a +:+ b.
Proof.
  induction a as [|x a IH]; intros s.
  - destruct s; simpl; (split; [intros _; by eexists|done]).
  - destruct s as [|y s]; simpl.
    + split; [done|]. by intros [b ?].
    + destruct (ascii_dec x y) as [->|Hxy].
      * rewrite IH. split; intros [b Hb]; exists b.
        -- by rewrite Hb.
        -- by injection Hb.
      * split; [done|]. intros [b Hb]. by injection Hb.
Qed.

Lemma str_contains_spec needle s :
  Legacy.str_contains needle s = true <-> exists a b, s = a +:+ needle +:+ b.
Proof.
  induction s as [|c s IH]; simpl.
  - rewrite orb_false_r.
    change (String.prefix needle "" = true <-> exists a b, "" = a +:+ needle +:+ b).
    rewrite string_prefix_spec. split.
    + intros [b Hb]. by exists "", b.
    + intros ([|? a] & b & Hb); [by exists b|done].
  - rewrite orb_true_iff, IH.
    change (String.prefix needle (String c s) = true
            \/ (exists a b, s = a +:+ needle +:+ b)
            <-> exists a b, String c s = a +:+ needle +:+ b).
    rewrite string_prefix_spec. split.
    + intros [[b Hb]|(a & b & Hb)].
      * by exists "", b.
      * exists (String c a), b. by rewrite Hb.
    + intros ([|c' a] & b & Hb).
      * left. by exists b.
      * right. exists a, b. by injection Hb.
Qed.

Lemma add_relationships_elem table columns : forall rels t c,
  (t, c) ∈ Legacy.add_relationships table rels columns
  <-> (t, c) ∈ rels
      \/ t = table
         /\ exists col, col ∈ columns /\ Legacy.column_name col = c
                        /\ Legacy.str_contains "_id" c = true.
Proof.
  unfold Legacy.add_relationships.
  induction columns as [|col columns IH]; intros rels t c; simpl.
  - split; [by left|]. intros [?|(_ & ? & ?%elem_of_nil & _)]; done.
  - rewrite IH. split.
    + intros [Hin|(-> & col' & ? & ? & ?)].
      * destruct (Legacy.str_contains "_id" (Legacy.column_name col)) eqn:Hc;
          [|by left].
        apply elem_of_app in Hin as [?|Hin]; [by left|].
        apply list_elem_of_singleton in Hin. injection Hin as -> ->.
        right. split; [done|]. exists col. split_and!; [left|done|done].
      * right. split; [done|]. exists col'. split_and!; [by right|done|done].
    + intros [Hin|(-> & col' & Hcol & <- & Hc)].
      * left. destruct (Legacy.str_contains "_id" (Legacy.column_name col));
          [|done].
        apply elem_of_app. by left.
      * apply elem_of_cons in Hcol as [->|Hcol].
        -- left. rewrite Hc. apply elem_of_app. right. left.
        -- right. split; [done|]. by exists col'.
Qed.

Lemma relationships_fold (s : Legacy.schema) : forall rels t c,
  (t, c) ∈ fold_left (fun rels '(table, columns) =>
                        Legacy.add_relationships table rels columns) s rels
  <-> (t, c) ∈ rels
      \/ exists columns col,
           (t, columns) ∈ s /\ col ∈ columns /\ Legacy.column_name col = c
           /\ Legacy.str_contains "_id" c = true.
Proof.
  induction s as [|[table columns] s IH]; intros rels t c; simpl.
  - split; [by left|]. intros [?|(? & ? & ?%elem_of_nil & _)]; done.
  - rewrite IH, add_relationships_elem. split.
    + intros [[?|(-> & col & ? & ? & ?)]|(cols & col & ? & ? & ? & ?)].
      * by left.
      * right. exists columns, col. split_and!; [left|done..].
      * right. exists cols, col. split_and!; [by right|done..].
    + intros [?|(cols & col & Hin & ? & ? & ?)]; [by left; left|].
      apply elem_of_cons in Hin as [[= -> ->]|?].
      * left. right. split; [done|]. by exists col.
      * right. by exists cols, col.
Qed.

Lemma relationships_of_elem (s : Legacy.schema) (t c : string) :
  (t, c) ∈ Legacy.relationships_of s
  <-> exists columns col,
        (t, columns) ∈ s /\ col ∈ columns /\ Legacy.column_name col = c
        /\ exists a b, c = a +:+ "_id" +:+ b.
Proof.
  unfold Legacy.relationships_of. rewrite relationships_fold.
  setoid_rewrite str_contains_spec. split.
  - intros [?%elem_of_nil|?]; done.
  - by right.
Qed.

(** X16: the relationships the analyser infers are exactly the pairs of a
    table of the schema and one of its columns whose name holds [_id]
    somewhere. *)
Theorem X16_inferred_relationships (s : Legacy.schema) (t c : string) :
  (t, c) ∈ Legacy.relationships_of s
  <-> exists columns col,
        (t, columns) ∈ s /\ col ∈ columns /\ Legacy.column_name col = c
        /\ exists a b, c = a +:+ "_id" +:+ b.
Proof.
  unfold Legacy.relationships_of. rewrite relationships_fold.
  setoid_rewrite str_contains_spec. split.
  - intros [Hnil|Hcol]; [by apply elem_of_nil in Hnil|exact Hcol].
  - intros Hcol. by right.
Qed.

Section Connector.
Context {Connection : Type}.
Context (sqlite3_connect : string -> string + Connection).
Context (table_names : Connection -> Legacy.failure + list string).
Context (table_info : Connection -> string -> Legacy.failure + list Legacy.column).

(** X17: a failed connection is printed and swallowed: the connector stays
    unconnected, and the analysis then fails with "Database not connected.",
    as it does on a connector that never tried to connect. *)
Theorem X17_unconnected_analysis (path e : string) :
  sqlite3_connect path = inl e ->
  Legacy.connect sqlite3_connect (Legacy.new path)
  = (Legacy.new path, ["Error connecting to database: " +:+ e])
  /\ Legacy.analyze_schema table_names table_info
       (fst (Legacy.connect sqlite3_connect (Legacy.new path)))
     = inl (Legacy.Exception "Database not connected.")
  /\ Legacy.analyze_schema table_names table_info (Legacy.new path)
     = inl (Legacy.Exception "Database not connected.")
  /\ Legacy.close (fst (Legacy.connect sqlite3_connect (Legacy.new path))) = [].
Proof.
  intros He. unfold Legacy.connect. simpl. by rewrite He.
Qed.

Lemma dict_set_keys {V} (d : list (string * V)) k v :
  NoDup (map fst d) ->
  NoDup (map fst (Legacy.dict_set d k v))
  /\ forall k' v', (k', v') ∈ Legacy.dict_set d k v
                   -> (k' = k /\ v' = v) \/ (k', v') ∈ d.
Proof.
  induction d as [|[k0 v0] d IH]; simpl; intros Hnd.
  - split; [repeat constructor; by intros ?%elem_of_nil|].
    intros k' v' Hin%list_elem_of_singleton. left. by injection Hin.
  - apply NoDup_cons in Hnd as [Hk0 Hnd]. destruct (IH Hnd) as [IHnd IHin].
    case_decide as Hk.
    + subst k0. split; [by constructor|].
      intros k' v' [[= -> ->]|?]%elem_of_cons; [by left|right; by right].
    + split.
      * simpl. constructor; [|done].
        intros ((k' & v') & Hfst & Hin)%list_elem_of_fmap. simpl in Hfst. subst k'.
        destruct (IHin _ _ Hin) as [[-> _]|Hd]; [done|].
        apply Hk0, list_elem_of_fmap. by exists (k0, v').
      * intros k' v' [[= -> ->]|Hin]%elem_of_cons; [right; left|].
        destruct (IHin _ _ Hin) as [?|?]; [by left|right; by right].
Qed.

Lemma read_tables_inv conn tables : forall acc s,
  Legacy.read_tables table_info conn tables acc = inr s ->
  NoDup (map fst acc) ->
  (forall t rows, (t, rows) ∈ acc -> table_info conn t = inr rows) ->
  NoDup (map fst s)
  /\ forall t rows, (t, rows) ∈ s -> table_info conn t = inr rows.
Proof.
  induction tables as [|table tables IH]; simpl; intros acc s Hrun Hnd Hacc.
  - by injection Hrun as <-.
  - destruct (table_info conn table) as [e|rows] eqn:Hinfo; [done|].
    destruct (dict_set_keys acc table rows Hnd) as [Hnd' Hin'].
    apply (IH _ _ Hrun Hnd'). intros t rows' Hin.
    destruct (Hin' _ _ Hin) as [[-> ->]|?]; [done|by apply Hacc].
Qed.

(** X18: the schema a connected connector returns names no table twice, and
    holds for each table the rows SQLite reported for it. *)
Theorem X18_schema_rows (c : Legacy.DBConnector) (conn : Connection)
    (s : Legacy.schema) :
  Legacy.connection c = Some conn ->
  Legacy.get_schema table_names table_info c = inr s ->
  NoDup (map fst s)
  /\ forall t rows, (t, rows) ∈ s -> table_info conn t = inr rows.
Proof.
  unfold Legacy.get_schema. intros -> Hrun.
  destruct (table_names conn) as [e|tables]; [done|].
  apply (read_tables_inv conn tables [] s Hrun); [constructor|].
  by intros t rows ?%elem_of_nil.
Qed.
End Connector.

Lemma relationship_flag_yes rels t col :
  Legacy.relationship_flag rels t col = "Yes"
  <-> exists c, (t, c) ∈ rels
                /\ exists a b, c = a +:+ Legacy.column_name col +:+ b.
Proof.
  unfold Legacy.relationship_flag.
  destruct (existsb _ rels) eqn:Hex.
  - split; [intros _|done].
    apply existsb_exists in Hex as ([t' c] & Hin%list_elem_of_In & Hc).
    apply andb_true_iff in Hc as [Ht%bool_decide_eq_true Hc]. simpl in *. subst t'.
    exists c. split; [done|]. by apply str_contains_spec.
  - split; [done|]. intros (c & Hin & Hc). exfalso.
    assert (existsb (fun rel => bool_decide (t = fst rel)
                                && Legacy.str_contains (Legacy.column_name col) (snd rel))
                    rels = true) as Htrue; [|congruence].
    apply existsb_exists. exists (t, c). split; [by apply list_elem_of_In|].
    apply andb_true_iff. split; [by apply bool_decide_eq_true|].
    by apply str_contains_spec.
Qed.

(** X19: in the report written from an analysed schema, a column is marked
    as a relationship exactly when its name occurs inside the name of a column
    of a table of the same name that holds [_id]; so every column whose own
    name holds [_id] is marked, and so is a column named [id] beside a column
    named [user_id]. *)
Theorem X19_report_flag (s : Legacy.schema) (t : string) (col : Legacy.column) :
  (Legacy.relationship_flag (Legacy.relationships_of s) t col = "Yes"
   <-> exists columns col' a b,
         (t, columns) ∈ s /\ col' ∈ columns
         /\ (exists a' b', Legacy.column_name col' = a' +:+ "_id" +:+ b')
         /\ Legacy.column_name col' = a +:+ Legacy.column_name col +:+ b)
  /\ (forall columns,
        (t, columns) ∈ s -> col ∈ columns ->
        (exists a b, Legacy.column_name col = a +:+ "_id" +:+ b) ->
        [t; Legacy.column_name col; Legacy.column_type col; "Yes"]
        ∈ Legacy.report_rows s (Legacy.relationships_of s)).
Proof.
  assert (Legacy.relationship_flag (Legacy.relationships_of s) t col = "Yes"
          <-> exists columns col' a b,
                (t, columns) ∈ s /\ col' ∈ columns
                /\ (exists a' b', Legacy.column_name col' = a' +:+ "_id" +:+ b')
                /\ Legacy.column_name col' = a +:+ Legacy.column_name col +:+ b)
    as Hflag.
  { rewrite relationship_flag_yes. split.
    - intros (c & (columns & col' & ? & ? & <- & ?)%relationships_of_elem & a & b & ?).
      by exists columns, col', a, b.
    - intros (columns & col' & a & b & ? & ? & ? & ?).
      exists (Legacy.column_name col'). split; [|by exists a, b].
      apply relationships_of_elem. by exists columns, col'. }
  split; [done|].
  intros columns Hin Hcol Hid. unfold Legacy.report_rows. right.
  apply list_elem_of_In, in_flat_map. exists (t, columns).
  split; [by apply list_elem_of_In|].
  apply in_map_iff. exists col. split; [|by apply list_elem_of_In].
  rewrite (proj2 Hflag); [done|].
  exists columns, col, "", "". split_and!; try done.
  by rewrite str_app_empty_r.
Qed.

(** * Properties of the legacy dashboard *)

Section Dashboard.
Context {Connection : Type}.
Context (sqlite3_connect : string -> string + Connection).
Context (table_names : Connection -> Legacy.failure + list string).
Context (table_info : Connection -> string -> Legacy.failure + list Legacy.column).

Local Abbreviation handle :=
  (App.handle sqlite3_connect table_names table_info).
Local Abbreviation serve :=
  (App.serve sqlite3_connect table_names table_info).
Local Abbreviation setup_database :=
  (App.setup_database sqlite3_connect table_names table_info).

Lemma setup_database_frame req st :
  App.users (snd (setup_database req st)) = App.users st
  /\ App.session (snd (setup_database req st)) = App.session st.
Proof.
  unfold App.setup_database.
  destruct (App.session st !! "username"); [|done].
  destruct (App.session st !! "role"); [|done].
  case_decide; [|done].
  destruct (App.form req !! "db_path"); [|done].
  destruct (Legacy.connect _ _) as [c out].
  by destruct (Legacy.analyze_schema _ _ c).
Qed.

(** What a request may do to the accounts: nothing, or add a new ordinary
    user. *)
Lemma handle_users rt req st :
  App.users (snd (handle rt req st)) = App.users st
  \/ exists u pw,
       App.users st !! u = None
       /\ App.users (snd (handle rt req st))
          = <[u := {| App.password := pw; App.role := "user" |}]> (App.users st).
Proof.
  destruct rt; unfold App.handle; destruct (App.method req) eqn:Hm; simpl;
    try (by left).
  - unfold App.home. destruct (App.session st !! "username"); [|by left].
    destruct (App.session st !! "role"); by left.
  - unfold App.login. rewrite Hm. by left.
  - unfold App.login. rewrite Hm.
    destruct (App.form req !! "username"); [|by left].
    destruct (App.form req !! "password"); [|by left].
    destruct (App.users st !! _); [|by left]. case_decide; by left.
  - unfold App.register. rewrite Hm. by left.
  - unfold App.register. rewrite Hm.
    destruct (App.form req !! "username") as [u|]; [|by left].
    destruct (App.form req !! "password") as [pw|]; [|by left].
    destruct (App.users st !! u) eqn:Hu; [by left|].
    right. by exists u, pw.
  - unfold App.admin. destruct (App.session st !! "username"); [|by left].
    destruct (App.session st !! "role"); [|by left]. case_decide; by left.
  - left. apply setup_database_frame.
Qed.

(** X20: no request changes or removes an account: whatever the route, the
    method and the form, an account of the credential store is still there
    afterwards, with the same password and the same role. *)
Theorem X20_accounts_are_kept (rt : App.route) (req : App.request) (st : App.state)
    (u : string) (x : App.user) :
  App.users st !! u = Some x ->
  App.users (snd (handle rt req st)) !! u = Some x.
Proof.
  intros Hu. destruct (handle_users rt req st) as [->|(u' & pw & Hnew & ->)];
    [done|].
  rewrite lookup_insert_ne; [done|]. intros ->. congruence.
Qed.

Lemma credentials_ok_step rt req st :
  credentials_ok (App.users st) ->
  credentials_ok (App.users (snd (handle rt req st))).
Proof.
  intros [Hadmin Hothers].
  destruct (handle_users rt req st) as [->|(u' & pw & Hnew & ->)]; [done|].
  assert (u' <> "admin") as Hne by (intros ->; congruence).
  split.
  - by rewrite lookup_insert_ne.
  - intros u x Hu Hu'. destruct (decide (u' = u)) as [->|Hd].
    + rewrite lookup_insert_eq in Hu. by injection Hu as <-.
    + rewrite lookup_insert_ne in Hu by done. by apply (Hothers u x).
Qed.

Lemma session_ok_more history r st :
  session_ok history st -> session_ok (history ++ [r]) st.
Proof.
  unfold session_ok. destruct (App.session st !! "username"); [|done].
  intros (x & ? & ? & req & ? & ?). exists x. split_and!; try done.
  exists req. split; [|done]. apply elem_of_app. by left.
Qed.

Lemma session_ok_step history rt req st :
  session_ok history st ->
  session_ok (history ++ [(rt, req)]) (snd (handle rt req st)).
Proof.
  intros Hok.
  assert (session_ok (history ++ [(rt, req)]) st) as Hsame
    by (by apply session_ok_more).
  destruct rt; unfold App.handle; destruct (App.method req) eqn:Hm; simpl;
    try done.
  - unfold App.home. destruct (App.session st !! "username"); [|done].
    by destruct (App.session st !! "role").
  - unfold App.login. by rewrite Hm.
  - unfold App.login. rewrite Hm.
    destruct (App.form req !! "username") as [u|] eqn:Hfu; [|done].
    destruct (App.form req !! "password") as [pw|] eqn:Hfp; [|done].
    destruct (App.users st !! u) as [x|] eqn:Hu; [|done].
    case_decide as Hpw; [|done].
    unfold session_ok. simpl.
    rewrite lookup_insert_ne by done. rewrite lookup_insert_eq.
    exists x. split_and!; [done|by rewrite lookup_insert_eq|].
    exists req. split_and!; try done; [|by rewrite Hpw].
    apply elem_of_app. right. left.
  - unfold App.logout, session_ok. simpl.
    rewrite lookup_delete_ne by done. by rewrite lookup_delete_eq.
  - unfold App.register. by rewrite Hm.
  - unfold App.register. rewrite Hm.
    destruct (App.form req !! "username") as [u|]; [|done].
    destruct (App.form req !! "password") as [pw|]; [|done].
    destruct (App.users st !! u) eqn:Hu; [done|].
    unfold session_ok in *. simpl.
    destruct (App.session st !! "username") as [u0|]; [|done].
    destruct Hsame as (x & Hx & ?). exists x. split; [|done].
    rewrite lookup_insert_ne; [done|]. intros ->. congruence.
  - unfold App.admin. destruct (App.session st !! "username") eqn:Hsu; [|done].
    destruct (App.session st !! "role"); [|done]. by case_decide.
  - destruct (setup_database_frame req st) as [Hu Hs].
    unfold session_ok in *. by rewrite Hu, Hs.
Qed.

Lemma serve_snoc requests r st :
  serve (requests ++ [r]) st = snd (handle (fst r) (snd r) (serve requests st)).
Proof. unfold App.serve. rewrite fold_left_app. by destruct r. Qed.

Lemma serve_invariant requests :
  credentials_ok (App.users (serve requests App.initial))
  /\ session_ok requests (serve requests App.initial).
Proof.
  induction requests as [|[rt req] requests [IHc IHs]] using rev_ind.
  - split; [|done]. split; [done|].
    intros u x Hu Hne. simpl in Hu. by rewrite lookup_singleton_ne in Hu.
  - rewrite serve_snoc. simpl. split.
    + by apply credentials_ok_step.
    + by apply session_ok_step.
Qed.

(** X21: starting from the built-in credential store, whatever requests
    follow, the administrator account keeps its password and its role, and
    every other account is an ordinary user: registration never creates an
    administrator. *)
Theorem X21_one_administrator (requests : list (App.route * App.request)) :
  App.users (serve requests App.initial) !! "admin"
  = Some {| App.password := "admin123"; App.role := "admin" |}
  /\ forall u x,
       App.users (serve requests App.initial) !! u = Some x ->
       u <> "admin" -> App.role x = "user".
Proof.
  destruct (serve_invariant requests) as [[Hadmin Hothers] _].
  split; [exact Hadmin|].
  intros u x Hu Hne. by apply (Hothers u x).
Qed.

(** X22: the administrator pages stay closed to a client that never logged in
    with the administrator's credentials: after any sequence of its requests,
    the admin page redirects to the home page, and so does the database setup,
    which then leaves the state as it is and opens no database. *)
Theorem X22_admin_pages_need_admin_login (requests : list (App.route * App.request)) :
  (forall req, (App.Login, req) ∈ requests -> ~ admin_login req) ->
  let st := serve requests App.initial in
  App.admin st = (App.Redirect "home", st)
  /\ forall req, setup_database req st = (App.Redirect "home", st).
Proof.
  intros Hno st.
  destruct (serve_invariant requests) as [[Hadmin Hothers] Hs].
  fold st in Hadmin, Hothers, Hs.
  unfold App.admin, App.setup_database, session_ok in *.
  destruct (App.session st !! "username") as [u|]; [|done].
  destruct Hs as (x & Hx & -> & req & Hin & Hm & Hfu & Hfp).
  case_decide as Hrole; [|done]. exfalso.
  assert (u = "admin") as ->.
  { destruct (decide (u = "admin")) as [|Hne]; [done|].
    specialize (Hothers u x Hx Hne). congruence. }
  rewrite Hadmin in Hx. injection Hx as <-.
  by apply (Hno req Hin).
Qed.

(** X23: registering a free user name and then logging in with the same form
    succeeds: the registration redirects to the login page, the login
    redirects to the home page, and the home page then shows the dashboard of
    that user, with the role of an ordinary user. *)
Theorem X23_register_then_login (req : App.request) (st : App.state) (u pw : string) :
  App.method req = App.POST ->
  App.form req !! "username" = Some u ->
  App.form req !! "password" = Some pw ->
  App.users st !! u = None ->
  let st1 := snd (App.register req st) in
  let st2 := snd (App.login req st1) in
  fst (App.register req st) = App.Redirect "login"
  /\ fst (App.login req st1) = App.Redirect "home"
  /\ fst (App.home st2)
     = App.Render "dashboard.html" [("username", u); ("role", "user")].
Proof.
  intros Hm Hfu Hfp Hu. unfold App.register, App.login, App.home.
  rewrite Hm, Hfu, Hfp, Hu. simpl.
  rewrite lookup_insert_eq. simpl. rewrite decide_True by done. simpl.
  rewrite lookup_insert_ne by done. rewrite lookup_insert_eq.
  by rewrite lookup_insert_eq.
Qed.

(** X24: a login is accepted exactly when the store has the user name with
    that very password; a rejected login answers "Invalid credentials!" and
    leaves the state, the session included, as it was. *)
Theorem X24_login_checks_password (req : App.request) (st : App.state) (u pw : string) :
  App.method req = App.POST ->
  App.form req !! "username" = Some u ->
  App.form req !! "password" = Some pw ->
  (fst (App.login req st) = App.Redirect "home"
   <-> exists x, App.users st !! u = Some x /\ App.password x = pw)
  /\ (fst (App.login req st) <> App.Redirect "home" ->
      App.login req st = (App.Text "Invalid credentials!", st)).
Proof.
  intros Hm Hfu Hfp. unfold App.login. rewrite Hm, Hfu, Hfp.
  destruct (App.users st !! u) as [x|].
  - case_decide as Hpw; simpl.
    + split; [|done]. split; [|done]. intros _. by exists x.
    + split; [|done]. split; [done|]. intros (x' & [= <-] & ?). done.
  - simpl. split; [|done]. split; [done|]. by intros (? & ? & _).
Qed.

(** X25: after a logout the client is a stranger again: the home page shows
    the login form, the admin page and the database setup redirect to the
    home page, and the accounts are untouched. *)
Theorem X25_logout_closes_the_session (req : App.request) (st : App.state) :
  let st' := snd (App.logout st) in
  App.home st' = (App.Render "login.html" [], st')
  /\ App.admin st' = (App.Redirect "home", st')
  /\ setup_database req st' = (App.Redirect "home", st')
  /\ App.users st' = App.users st.
Proof.
  unfold App.home, App.admin, App.setup_database, App.logout. simpl.
  rewrite lookup_delete_ne by done. by rewrite lookup_delete_eq.
Qed.
End Dashboard.

(** * The further properties at work on the sample data *)

Lemma X8_accumulators_grow_witness :
  all_errors initial_state `prefix_of` all_errors Sample.after_targets
  /\ known_rule_ids initial_state ⊆ known_rule_ids Sample.after_targets
  /\ referenced_rule_ids initial_state ⊆ referenced_rule_ids Sample.after_targets
  /\ stdout initial_state `prefix_of` stdout Sample.after_targets.
Proof.
  apply (X8_accumulators_grow Demo.json Demo.yaml Demo.compile Demo.tree Demo.lenient
           (targets_of Demo.root) initial_state Sample.after_targets).
  by vm_compute.
Defined.

Lemma X9_targets_feed_one_set_witness :
  (name Sample.rules = "rule definitions" ->
   referenced_rule_ids Sample.after_rules = referenced_rule_ids initial_state)
  /\ (name Sample.rules <> "rule definitions" ->
      known_rule_ids Sample.after_rules = known_rule_ids initial_state).
Proof.
  apply (X9_targets_feed_one_set Demo.json Demo.yaml Demo.compile Demo.tree
           Demo.lenient Sample.rules initial_state Sample.after_rules).
  by vm_compute.
Defined.

Lemma X10_unparsable_document_witness :
  exists st1 st2,
    process_files Demo.json Demo.yaml Demo.tree Demo.lenient Sample.rules
      (fun _ => Ret []) initial_state [] = Ret st1
    /\ process_file Demo.json Demo.yaml Demo.tree Demo.lenient Sample.rules
         (fun _ => Ret []) st1 Sample.broken = Ret st2
    /\ all_errors st2
       = all_errors st1
           ++ [path_str Sample.broken +:+ ": unable to parse document: "
                 +:+ "while parsing a flow node"]
    /\ known_rule_ids st2 = known_rule_ids st1
    /\ referenced_rule_ids st2 = referenced_rule_ids st1
    /\ process_files Demo.json Demo.yaml Demo.tree Demo.lenient Sample.rules
         (fun _ => Ret []) st2 [Sample.nulls] = Ret Sample.after_files.
Proof.
  apply (X10_unparsable_document Demo.json Demo.yaml Demo.tree Demo.lenient
           Sample.rules (fun _ => Ret []) [] [Sample.nulls] Sample.broken
           "while parsing a flow node" initial_state Sample.after_files);
    by vm_compute.
Defined.


Lemma X12_everything_is_printed_witness :
  "Data Quality asset validation summary" ∈ output (Demo.run Demo.tree Demo.lenient)
  /\ "- Errors: 3" ∈ output (Demo.run Demo.tree Demo.lenient)
  /\ "- Missing schema file: /repo/schemas/semantic-types-schema.json"
     ∈ output (Demo.run Demo.tree Demo.lenient).
Proof.
  destruct (X12_everything_is_printed Demo.json Demo.yaml Demo.compile Demo.tree
              Demo.lenient (Demo.run Demo.tree Demo.lenient))
    as (Hsummary & _ & _ & Herrors & _ & _ & Heach); [by vm_compute|].
  split_and!; [exact Hsummary|exact Herrors|].
  apply Heach. right. left.
Defined.

Lemma X13_no_warning_iff_all_known_witness :
  warnings (Demo.run Demo.small Demo.lenient) = []
  <-> referenced (Demo.run Demo.small Demo.lenient)
      ⊆ known (Demo.run Demo.small Demo.lenient).
Proof.
  apply (X13_no_warning_iff_all_known Demo.json Demo.yaml Demo.compile Demo.small
           Demo.lenient (Demo.run Demo.small Demo.lenient)).
  by vm_compute.
Defined.

Lemma X17_unconnected_analysis_witness :
  Legacy.analyze_schema Sample.table_names Sample.table_info
    (fst (Legacy.connect Sample.no_database (Legacy.new "shop.db")))
  = inl (Legacy.Exception "Database not connected.").
Proof.
  apply (X17_unconnected_analysis Sample.no_database Sample.table_names
           Sample.table_info "shop.db" "unable to open database file").
  reflexivity.
Defined.

Lemma X18_schema_rows_witness :
  NoDup (map fst Sample.shop)
  /\ forall t rows, (t, rows) ∈ Sample.shop -> Sample.table_info tt t = inr rows.
Proof.
  apply (X18_schema_rows Sample.table_names Sample.table_info Sample.connected tt
           Sample.shop); reflexivity.
Defined.

Lemma X19_report_flag_witness :
  ["orders"; "user_id"; "INTEGER"; "Yes"]
  ∈ Legacy.report_rows Sample.shop (Legacy.relationships_of Sample.shop).
Proof.
  apply (proj2 (X19_report_flag Sample.shop "orders" (Sample.col 1 "user_id" "INTEGER"))
           Sample.orders_rows).
  - right. left.
  - right. left.
  - by exists "user", "".
Defined.

Lemma X20_accounts_are_kept_witness :
  App.users (snd (App.handle Sample.no_database Sample.table_names Sample.table_info
                    App.Register Sample.wrong_form App.initial)) !! "admin"
  = Some {| App.password := "admin123"; App.role := "admin" |}.
Proof.
  apply (X20_accounts_are_kept Sample.no_database Sample.table_names Sample.table_info
           App.Register Sample.wrong_form App.initial "admin").
  reflexivity.
Defined.

Lemma X22_admin_pages_need_admin_login_witness :
  let st := App.serve Sample.no_database Sample.table_names Sample.table_info
              Sample.bob_session App.initial in
  App.admin st = (App.Redirect "home", st)
  /\ forall req,
       App.setup_database Sample.no_database Sample.table_names Sample.table_info
         req st
       = (App.Redirect "home", st).
Proof.
  apply (X22_admin_pages_need_admin_login Sample.no_database Sample.table_names
           Sample.table_info Sample.bob_session).
  intros req Hin (_ & Hu & Hp).
  repeat (apply elem_of_cons in Hin as [Hin|Hin]);
    try (injection Hin as ->); try discriminate;
    try (vm_compute in Hu; discriminate);
    try (vm_compute in Hp; discriminate).
  by apply elem_of_nil in Hin.
Defined.

Lemma X23_register_then_login_witness :
  fst (App.register Sample.bob_form App.initial) = App.Redirect "login"
  /\ fst (App.login Sample.bob_form (snd (App.register Sample.bob_form App.initial)))
     = App.Redirect "home"
  /\ fst (App.home
            (snd (App.login Sample.bob_form
                    (snd (App.register Sample.bob_form App.initial)))))
     = App.Render "dashboard.html" [("username", "bob"); ("role", "user")].
Proof.
  apply (X23_register_then_login Sample.bob_form App.initial "bob" "secret");
    reflexivity.
Defined.

Lemma X24_login_checks_password_witness :
  App.login Sample.wrong_form App.initial
  = (App.Text "Invalid credentials!", App.initial).
Proof.
  apply (proj2 (X24_login_checks_password Sample.wrong_form App.initial
                  "admin" "guess" eq_refl eq_refl eq_refl)).
  by vm_compute.
Defined.

(** ** The names of the discovered files *)

(** X15: a search path yields a file exactly when it is a directory, the file
    is a regular file below it, and the name of the file is a non-empty stem,
    a dot, and one of [yaml], [yml], [json] in any letter case: a file named
    [.json], with nothing before the dot, is not a document. *)
Theorem X15_discovered_names (fs : file_system) (base f : path) :
  f ∈ find_files fs [base]
  <-> fs_lookup fs base = Some Dir
      /\ below base f
      /\ path_is_file fs f = true
      /\ exists name stem ext,
           last f = Some name
           /\ stem <> ""
           /\ name = stem +:+ String "."%char ext
           /\ no_dot ext
           /\ str_lower ext ∈ ["yaml"; "yml"; "json"].
Proof.
  rewrite find_files_single_elem.
  destruct (path_suffix_shape f) as [Hshape Hiff].
  assert (forall ext, str_lower (String "."%char ext) ∈ SUPPORTED_EXTENSIONS
                      <-> str_lower ext ∈ ["yaml"; "yml"; "json"]) as Hsupp.
  { intros ext. change (str_lower (String "."%char ext))
      with (String "."%char (str_lower ext)).
    unfold SUPPORTED_EXTENSIONS. rewrite !elem_of_cons, !elem_of_nil.
    split.
    - intros [[= ->]|[[= ->]|[[= ->]|[]]]]; tauto.
    - intros [->|[->|[->|[]]]]; tauto. }
  split.
  - intros (Hdir & Hbelow & Hfile & Hext). split_and!; try done.
    destruct Hshape as [Hnone|[t Ht]].
    + rewrite Hnone in Hext. exfalso. revert Hext.
      unfold SUPPORTED_EXTENSIONS. rewrite !elem_of_cons, elem_of_nil.
      intros [?|[?|[?|[]]]]; done.
    + rewrite Ht in Hext. apply Hsupp in Hext.
      apply Hiff in Ht as (_ & Hno & name & stem & Hlast & Hstem & Hname).
      by exists name, stem, t.
  - intros (Hdir & Hbelow & Hfile & name & stem & ext & Hlast & Hstem & Hname
            & Hno & Hext).
    split_and!; try done.
    assert (path_suffix f = String "."%char ext) as ->.
    { apply Hiff. split_and!; [|done|by exists name, stem].
      intros ->. revert Hext. rewrite !elem_of_cons, elem_of_nil.
      intros [?|[?|[?|[]]]]; done. }
    by apply Hsupp.
Qed.

(** * Runs that are not aborted *)

(** X26: on a document all of whose mappings have string keys, as every JSON
    document has, and with a validator that raises on no such document and
    locates its violations inside the document, the adapter raises nothing and
    returns its list of errors. *)
Theorem X26_adapter_returns (v : validator) (payload : value) (file_path : path) :
  string_keyed payload ->
  validates_every_document v ->
  reports_real_paths v ->
  exists errs, validate_document v payload file_path = Ret errs.
Proof.
  intros Hkeys Htotal Hreal.
  destruct payload as [| | | | |items|fields|]; try by eexists.
  - apply validate_items_returns; [|done..].
    intros item [i Hi]%list_elem_of_lookup. by eapply string_keyed_item.
  - destruct (Htotal (VDict fields) Hkeys) as [violations Hv].
    apply (validate_object_returns v fields file_path violations Hv).
    intros x y Hx Hy.
    apply (real_paths_comparable _ _ (VDict fields)); [done|by eapply Hreal..].
Qed.


(** X28: for each of the three registered targets the discovered files are in
    lexicographic order as a whole, the rule target with its two search paths
    included. *)
Theorem X28_registered_targets_in_order (fs : file_system) (root : path) :
  Forall (fun target => Sorted path_le (find_files fs (search_paths target)))
         (targets_of root).
Proof.
  pose proof (find_files_single_sorted fs) as Hone.
  repeat constructor; simpl; try apply Hone.
  unfold find_files. rewrite find_files_from_concat. simpl. rewrite app_nil_r.
  apply StronglySorted_Sorted, StronglySorted_app_2.
  - intros f1 f2 (_ & H1 & _)%find_files_single_elem
                 (_ & H2 & _)%find_files_single_elem.
    by eapply core_before_extensions.
  - apply Sorted_StronglySorted; [apply _|apply Hone].
  - apply Sorted_StronglySorted; [apply _|apply Hone].
Qed.

Lemma X26_adapter_returns_witness :
  exists errs,
    validate_document no_string_properties Sample.owners
      ["repo"; "rules"; "datasets"; "owners.json"]
    = Ret errs.
Proof.
  apply (X26_adapter_returns no_string_properties Sample.owners
           ["repo"; "rules"; "datasets"; "owners.json"]).
  - by apply string_keyedb_sound.
  - exact no_string_properties_total.
  - exact no_string_properties_real.
Defined.


(** * Where the identifiers of a run come from *)

Section Identifiers.
Context (json_loads : string -> string + value).
Context (yaml_safe_load : string -> string + value).
Context (Draft202012Validator : value -> result validator).
Context (fs : file_system) (args : arguments).

Local Abbreviation files_loop :=
  (process_files json_loads yaml_safe_load fs args).
Local Abbreviation target_step :=
  (process_target json_loads yaml_safe_load Draft202012Validator fs args).
Local Abbreviation targets_loop :=
  (process_targets json_loads yaml_safe_load Draft202012Validator fs args).
Local Abbreviation load :=
  (load_payload json_loads yaml_safe_load fs).

Lemma process_files_ids target v files : forall st st' id,
  files_loop target v st files = Ret st' ->
  (id ∈ known_rule_ids st'
   <-> id ∈ known_rule_ids st
       \/ name target = "rule definitions"
          /\ exists f payload,
               f ∈ files /\ load f = inr payload /\ id ∈ extract_rule_ids payload)
  /\ (id ∈ referenced_rule_ids st'
      <-> id ∈ referenced_rule_ids st
          \/ name target <> "rule definitions"
             /\ exists f payload,
                  f ∈ files /\ load f = inr payload
                  /\ id ∈ extract_referenced_rule_ids payload).
Proof.
  induction files as [|f files IH]; simpl; intros st st' id Hrun.
  - injection Hrun as <-.
    split; (split; [by left|]; intros [?|(_ & ? & ? & ?%elem_of_nil & _)]; done).
  - destruct (process_file _ _ _ _ target v st f) as [st1|] eqn:Hf;
      simpl in Hrun; [|done].
    destruct (IH st1 st' id Hrun) as [IHk IHr]. rewrite IHk, IHr. clear IHk IHr.
    apply process_file_inv in Hf as (st0 & Hst0 & Hload).
    assert (known_rule_ids st0 = known_rule_ids st
            /\ referenced_rule_ids st0 = referenced_rule_ids st) as [Hk0 Hr0].
    { by destruct Hst0 as [->|[line ->]]. }
    destruct (load f) as [exc|payload] eqn:Hl.
    + subst st1. simpl. rewrite Hk0, Hr0.
      split; (split; [intros [?|(? & f' & p' & ? & ? & ?)]; [by left|];
                       right; split; [done|]; exists f', p';
                       split_and!; [by right|done..]
                     |intros [?|(? & f' & p' & [->|?]%elem_of_cons & Hl' & ?)];
                        [by left|congruence|];
                       right; split; [done|]; by exists f', p']).
    + destruct Hload as (errs & _ & ->).
      case_decide as Hn; simpl; rewrite ?elem_of_union, Hk0, Hr0.
      * split.
        -- split.
           ++ intros [[?|?]|(? & f' & p' & ? & ? & ?)]; [by left| |].
              ** right. split; [done|]. exists f, payload. split_and!; [left|done..].
              ** right. split; [done|]. exists f', p'. split_and!; [by right|done..].
           ++ intros [?|(? & f' & p' & [->|?]%elem_of_cons & Hl' & ?)];
                [by left; left| |].
              ** left. right. congruence.
              ** right. split; [done|]. by exists f', p'.
        -- split; (intros [?|(? & _)]; [by left|done]).
      * split.
        -- split; (intros [?|(? & _)]; [by left|done]).
        -- split.
           ++ intros [[?|?]|(? & f' & p' & ? & ? & ?)]; [by left| |].
              ** right. split; [done|]. exists f, payload. split_and!; [left|done..].
              ** right. split; [done|]. exists f', p'. split_and!; [by right|done..].
           ++ intros [?|(? & f' & p' & [->|?]%elem_of_cons & Hl' & ?)];
                [by left; left| |].
              ** left. right. congruence.
              ** right. split; [done|]. by exists f', p'.
Qed.

Lemma read_json_exists p schema_payload :
  read_json json_loads fs p = inr schema_payload -> path_exists fs p = true.
Proof.
  unfold read_json, read_text, path_exists.
  destruct (fs_lookup fs p) as [[raw|]|]; [|done..].
  intros _. apply bool_decide_eq_true. by eexists.
Qed.

Lemma process_target_ids st target st' id :
  target_step st target = Ret st' ->
  (id ∈ known_rule_ids st'
   <-> id ∈ known_rule_ids st
       \/ name target = "rule definitions"
          /\ exists payload,
               loads json_loads yaml_safe_load fs target payload
               /\ id ∈ extract_rule_ids payload)
  /\ (id ∈ referenced_rule_ids st'
      <-> id ∈ referenced_rule_ids st
          \/ name target <> "rule definitions"
             /\ exists payload,
                  loads json_loads yaml_safe_load fs target payload
                  /\ id ∈ extract_referenced_rule_ids payload).
Proof.
  unfold process_target, loads.
  destruct (path_exists fs (schema_path target)) eqn:Hex; simpl.
  - destruct (read_json json_loads fs (schema_path target)) as [exc|schema_payload]
      eqn:Hschema.
    + intros [= <-]. simpl.
      split; (split; [by left|]; intros [?|(_ & ? & [[? ?] _] & _)]; done).
    + destruct (Draft202012Validator schema_payload) as [v|]; simpl; [|done].
      intros Hrun. apply (process_files_ids _ _ _ _ _ id) in Hrun as [Hk Hr].
      rewrite Hk, Hr. clear Hk Hr.
      assert (forall P : value -> Prop,
                (exists payload,
                   ((exists sp : value, @inr string value schema_payload = inr sp)
                    /\ exists f, f ∈ find_files fs (search_paths target)
                                 /\ load f = inr payload)
                   /\ P payload)
                <-> exists f payload,
                      f ∈ find_files fs (search_paths target)
                      /\ load f = inr payload /\ P payload) as Hshape.
      { intros P. split.
        - intros (payload & (_ & f & ? & ?) & ?). by exists f, payload.
        - intros (f & payload & ? & ? & ?). exists payload.
          split; [|done]. split; [by eexists|by exists f]. }
      split.
      * rewrite (Hshape (fun payload => id ∈ extract_rule_ids payload)).
        by destruct (verbose args).
      * rewrite (Hshape (fun payload => id ∈ extract_referenced_rule_ids payload)).
        by destruct (verbose args).
  - intros [= <-]. simpl.
    split; (split; [by left|]; intros [?|(_ & ? & [[sp Hsp] _] & _)]; [done|]);
      apply read_json_exists in Hsp; congruence.
Qed.

Lemma process_targets_ids targets : forall st st' id,
  targets_loop st targets = Ret st' ->
  (id ∈ known_rule_ids st'
   <-> id ∈ known_rule_ids st
       \/ exists target payload,
            target ∈ targets /\ name target = "rule definitions"
            /\ loads json_loads yaml_safe_load fs target payload
            /\ id ∈ extract_rule_ids payload)
  /\ (id ∈ referenced_rule_ids st'
      <-> id ∈ referenced_rule_ids st
          \/ exists target payload,
               target ∈ targets /\ name target <> "rule definitions"
               /\ loads json_loads yaml_safe_load fs target payload
               /\ id ∈ extract_referenced_rule_ids payload).
Proof.
  induction targets as [|t targets IH]; simpl; intros st st' id Hrun.
  - injection Hrun as <-.
    split; (split; [by left|]; intros [?|(? & ? & ?%elem_of_nil & _)]; done).
  - destruct (target_step st t) as [st1|] eqn:Ht; simpl in Hrun; [|done].
    destruct (IH st1 st' id Hrun) as [IHk IHr].
    destruct (process_target_ids st t st1 id Ht) as [Hk Hr].
    rewrite IHk, IHr, Hk, Hr. clear IHk IHr Hk Hr.
    split; (split;
      [intros [[?|(? & p & ? & ?)]|(t' & p & ? & ? & ? & ?)];
         [by left
         |right; exists t, p; split_and!; [left|done..]
         |right; exists t', p; split_and!; [by right|done..]]
      |intros [?|(t' & p & [->|?]%elem_of_cons & ? & ? & ?)];
         [by left; left
         |left; right; split; [done|]; by exists p
         |right; by exists t', p]]).
Qed.

(** X29: the identifier sets of a run that reaches its report are exactly
    what the documents hold: an identifier is known when some document of the
    rule target, discovered under its search paths, parsed, and with a schema
    that could be read, declares it; it is referenced when some such document
    of another target references it. *)
Theorem X29_identifier_sets (r : outcome) (id : string) :
  main json_loads yaml_safe_load Draft202012Validator fs args = Ret r ->
  (id ∈ known r
   <-> exists target payload,
         target ∈ targets_of (project_root args)
         /\ name target = "rule definitions"
         /\ loads json_loads yaml_safe_load fs target payload
         /\ id ∈ extract_rule_ids payload)
  /\ (id ∈ referenced r
      <-> exists target payload,
            target ∈ targets_of (project_root args)
            /\ name target <> "rule definitions"
            /\ loads json_loads yaml_safe_load fs target payload
            /\ id ∈ extract_referenced_rule_ids payload).
Proof.
  intros (st & Hst & ->)%main_report.
  set (suite := validate_ge_suite_shape _ _ _).
  destruct (report_fields args st suite) as (_ & _ & -> & ->).
  destruct (process_targets_ids _ _ _ id Hst) as [Hk Hr].
  rewrite Hk, Hr. simpl.
  split; (split; [intros [?%elem_of_empty|?]; done|by right]).
Qed.
End Identifiers.

Lemma X29_identifier_sets_witness :
  ("R2" ∈ known (Demo.run Demo.tree Demo.lenient)
   <-> exists target payload,
         target ∈ targets_of (project_root Demo.lenient)
         /\ name target = "rule definitions"
         /\ loads Demo.json Demo.yaml Demo.tree target payload
         /\ "R2" ∈ extract_rule_ids payload)
  /\ ("R2" ∈ referenced (Demo.run Demo.tree Demo.lenient)
      <-> exists target payload,
            target ∈ targets_of (project_root Demo.lenient)
            /\ name target <> "rule definitions"
            /\ loads Demo.json Demo.yaml Demo.tree target payload
            /\ "R2" ∈ extract_referenced_rule_ids payload).
Proof.
  apply (X29_identifier_sets Demo.json Demo.yaml Demo.compile Demo.tree Demo.lenient
           (Demo.run Demo.tree Demo.lenient) "R2").
  by vm_compute.
Defined.

(** * The rows of the legacy report *)

(** X30: the report has its header row, then one row of four cells for each
    column of each table of the schema, in the order of the schema: the rows
    of a table stand behind those of the tables before it, in the order of its
    columns, each with its flag.  No column is left out and no row is added. *)
Theorem X30_report_rows (s : Legacy.schema) (relationships : list (string * string)) :
  exists body,
    Legacy.report_rows s relationships
    = ["Table"; "Column"; "Type"; "Relationships"] :: body
    /\ length body = sum_list (map (fun entry => length (snd entry)) s)
    /\ (forall i j t columns c,
          s !! i = Some (t, columns) ->
          columns !! j = Some c ->
          body !! (sum_list (map (fun entry => length (snd entry)) (take i s)) + j)
          = Some [t; Legacy.column_name c; Legacy.column_type c;
                  Legacy.relationship_flag relationships t c])
    /\ (forall row, row ∈ body ->
          exists t columns c flag,
            (t, columns) ∈ s /\ c ∈ columns
            /\ (flag = "Yes" \/ flag = "No")
            /\ row = [t; Legacy.column_name c; Legacy.column_type c; flag])
    /\ (forall t columns c,
          (t, columns) ∈ s -> c ∈ columns ->
          exists flag,
            [t; Legacy.column_name c; Legacy.column_type c; flag] ∈ body).
Proof.
  unfold Legacy.report_rows. eexists. split; [reflexivity|]. split_and!.
  - induction s as [|[t columns] s IH]; simpl; [done|].
    by rewrite length_app, length_map, IH.
  - induction s as [|[t0 columns0] s IH]; intros i j t columns c Hi Hj; [done|].
    destruct i as [|i]; simpl in *.
    + injection Hi as -> ->.
      rewrite lookup_app_l by (rewrite length_map; by eapply lookup_lt_Some).
      by rewrite list_lookup_fmap, Hj.
    + set (rows := map _ columns0).
      assert (length rows = length columns0) as Hlen by apply length_map.
      rewrite lookup_app_r by lia.
      replace (_ + _ + j - length rows) with
        (sum_list (map (fun entry => length (snd entry)) (take i s)) + j) by lia.
      by apply (IH i j t columns c).
  - intros row Hrow%list_elem_of_In. apply in_flat_map in Hrow as ([t columns] & Hin & Hrow).
    apply in_map_iff in Hrow as (c & <- & Hc).
    exists t, columns, c, (Legacy.relationship_flag relationships t c).
    split_and!; [by apply list_elem_of_In|by apply list_elem_of_In| |done].
    unfold Legacy.relationship_flag. destruct (existsb _ _); [by left|by right].
  - intros t columns c Hin Hc.
    exists (Legacy.relationship_flag relationships t c).
    apply list_elem_of_In, in_flat_map. exists (t, columns).
    split; [by apply list_elem_of_In|].
    apply in_map_iff. exists c. split; [done|by apply list_elem_of_In].
Qed.
